(** * Solix2MQTT: the poll / cache / publish loop of [src/app.ts]

    A shallow embedding of [src/src/app.ts] (the function [isLoginValid], the
    closure [fetchAndPublish] and the endless loop of [run]) and of the two
    methods [_init] and [getSitehomepage] of the class [SolixE1600] in
    [src/ref/e1600.ts].

    The collaborators the program imports ([./api], [./persistence],
    [./publish], [./logger], [./utils], [./config]) are not part of the
    sources.  Their answers are supplied by an environment [Env]: every call
    asks the environment what the collaborator answers, given the complete
    history of calls and answers so far, and is recorded in that history.
    A call may answer or throw (reject), as the environment says; the
    logger, the clock and [sleep] always return, and [api.login()], when it
    returns, returns a response object.  Times are integers: milliseconds
    for [Date.getTime()], seconds for [token_expires_at] and
    [config.pollInterval]. *)

From Stdlib Require Import ZArith List String Bool Lia.
From Stdlib Require Import DecimalString.
Import ListNotations.

Open Scope string_scope.
Open Scope list_scope.
Open Scope Z_scope.

Infix "+++" := String.append (at level 60, right associativity).

(** ** Values *)

(** A thrown JavaScript value, identified by its message. *)
Definition Exn := string.

(** What an (awaited) call produces: a value, or a thrown exception / a
    rejected promise. *)
Inductive Outcome (A : Type) : Type :=
| Ok (a : A)
| Throw (e : Exn).
Arguments Ok {A} a.
Arguments Throw {A} e.

(** A payload that the program forwards without looking inside. *)
Definition Json := string.

(** [LoginResultResponse]: only [token_expires_at] (seconds since the epoch)
    is read by the program; the token itself is opaque. *)
Record LoginResultResponse : Type := mkLogin {
  auth_token : string;
  token_expires_at : Z
}.

(** [ResultResponse<T>]: [data] may be absent. *)
Record ResultResponse (D : Type) : Type := mkResponse {
  code : Z;
  msg : string;
  data : option D
}.
Arguments mkResponse {D} code msg data.
Arguments code {D} r.
Arguments msg {D} r.
Arguments data {D} r.

Record Site : Type := mkSite {
  site_id : string;
  site_name : string
}.

(** [SiteHomepageResponse]: [site_list] is read through [?.] and [??], so it
    may be absent; the remaining fields are opaque. *)
Record SiteHomepageResponse : Type := mkHomepage {
  site_list : option (list Site);
  homepage_rest : Json
}.

Record SiteDeviceParamResponse : Type := mkParam {
  param_data : Json
}.

(** A session call resolves to a response or to [undefined] ([None]); the
    retry of [getSitehomepage] tests for exactly that. *)
Abbreviation ApiResult D := (option (ResultResponse D)) (only parsing).

(** The second argument of [publisher.publish]. *)
Inductive Payload : Type :=
| PUndefined
| PHomepage (d : SiteHomepageResponse)
| PScenInfo (d : Json)
| PSchedule (d : Json).

(** The texts handed to the logger. *)
Inductive LogMsg : Type :=
| MsgConfig                                  (* the anonymized configuration *)
| MsgFetchingData                            (* "Fetching data" *)
| MsgUsingCached                             (* "Using cached auth data" *)
| MsgCouldNotLogIn (m : string) (c : Z)      (* "Could not log in: m (c)" *)
| MsgPublished                               (* "Published." *)
| MsgNotLoggedIn                             (* "Not logged in" *)
| MsgSleeping (ms : Z).                      (* "Sleeping for ms ms..." *)

(** ** Events: every call to a collaborator, with its answer *)

Inductive Event : Type :=
| ELog (m : LogMsg)
| EError (m : LogMsg)
| EWarn (e : Exn)
| ENow (t : Z)
| ESleep (ms : Z)
| ETimeout (ms : Z)
| ERetrieve (r : Outcome (option LoginResultResponse))
| EStore (c : LoginResultResponse) (r : Outcome unit)
| ELogin (r : Outcome (ResultResponse LoginResultResponse))
| EWithLogin (c : LoginResultResponse) (r : Outcome unit)
| ESiteHomepage (r : Outcome (ApiResult SiteHomepageResponse))
| EScenInfo (siteId : string) (r : Outcome (ApiResult Json))
| EGetSiteDeviceParam (siteId paramType : string)
    (r : Outcome (ApiResult SiteDeviceParamResponse))
| EPublish (topic : string) (p : Payload) (r : Outcome unit)
| EConsoleLog (r : ResultResponse LoginResultResponse)
| EConsoleError (e : Exn).

Definition History := list Event.

(** ** The environment *)

Record Env : Type := mkEnv {
  (* config *)
  mqttTopic : string;
  pollInterval : Z;
  (* the member [ParamType.LoadConfiguration] of the enum in [./api] *)
  LoadConfiguration : string;
  (* the clock behind [new Date()] *)
  clock : History -> Z;
  (* the persistence store: whether a call fails *)
  retrieve_fault : History -> option Exn;
  store_fault : History -> LoginResultResponse -> option Exn;
  (* the cloud API *)
  api_login : History -> Outcome (ResultResponse LoginResultResponse);
  api_withLogin : History -> LoginResultResponse -> Outcome unit;
  api_siteHomepage : History -> Outcome (ApiResult SiteHomepageResponse);
  api_scenInfo : History -> string -> Outcome (ApiResult Json);
  api_getSiteDeviceParam :
    History -> string -> string -> Outcome (ApiResult SiteDeviceParamResponse);
  (* the MQTT publisher *)
  mqtt_publish : History -> string -> Payload -> Outcome unit;
  (* [getConfig()], line 8 of app.ts: whether it throws *)
  config_fault : option Exn;
  (* the constructors of lines 17-26: whether one of them throws *)
  construct_fault : option Exn
}.

(** ** The monad: history in, new events out, a state threaded through *)

Definition M (S A : Type) : Type :=
  History -> S -> Outcome A * list Event * S.

Definition ret {S A} (a : A) : M S A :=
  fun _ s => (Ok a, [], s).

Definition throw {S A} (e : Exn) : M S A :=
  fun _ s => (Throw e, [], s).

Definition bind {S A B} (m : M S A) (f : A -> M S B) : M S B :=
  fun h s =>
    match m h s with
    | (Ok a, e1, s1) =>
        match f a (h ++ e1) s1 with
        | (r, e2, s2) => (r, e1 ++ e2, s2)
        end
    | (Throw x, e1, s1) => (Throw x, e1, s1)
    end.

(** [try { m } catch (e) { handler e }] *)
Definition try_catch {S A} (m : M S A) (handler : Exn -> M S A) : M S A :=
  fun h s =>
    match m h s with
    | (Ok a, e1, s1) => (Ok a, e1, s1)
    | (Throw x, e1, s1) =>
        match handler x (h ++ e1) s1 with
        | (r, e2, s2) => (r, e1 ++ e2, s2)
        end
    end.

Notation "x <- m ;; k" := (bind m (fun x => k))
  (at level 61, m at next level, right associativity).
Notation "m ;;; k" := (bind m (fun _ => k))
  (at level 61, right associativity).

(** A call whose answer [r] the environment has chosen. *)
Definition perform {S A} (r : Outcome A) (ev : Event) : M S A :=
  fun _ s => (r, [ev], s).

Definition emit {S} (ev : Event) : M S unit :=
  fun _ s => (Ok tt, [ev], s).

Definition get {S} : M S S := fun _ s => (Ok s, [], s).
Definition put {S} (s : S) : M S unit := fun _ _ => (Ok tt, [], s).

(** [for (const x of l) body] *)
Fixpoint forOf {S A} (l : list A) (body : A -> M S unit) : M S unit :=
  match l with
  | [] => ret tt
  | x :: rest => body x ;;; forOf rest body
  end.

(** The outcome, the events and the final state of a run. *)
Definition outcome {S A} (r : Outcome A * list Event * S) : Outcome A :=
  fst (fst r).
Definition events {S A} (r : Outcome A * list Event * S) : list Event :=
  snd (fst r).
Definition final {S A} (r : Outcome A * list Event * S) : S := snd r.

(** ** JavaScript dates *)

(** The time value of a [Date]: milliseconds since the epoch, or [None] for
    an invalid date, whose [getTime()] is [NaN]. *)
Definition Date := option Z.

(** [new Date(ms)] for an integral [ms]: the time value is clipped to
    +-8.64e15 ms, outside of which the date is invalid. *)
Definition Date_of (ms : Z) : Date :=
  if Z.abs ms <=? 8640000000000000 then Some ms else None.

(** [a.getTime() > b.getTime()]; a comparison with [NaN] is false. *)
Definition getTime_gt (a b : Date) : bool :=
  match a, b with
  | Some x, Some y => y <? x
  | _, _ => false
  end.

(** [isLoginValid(loginData, now)], app.ts lines 11-13. *)
Definition isLoginValid (loginData : LoginResultResponse) (now : Date) : bool :=
  getTime_gt (Date_of (token_expires_at loginData * 1000)) now.

(** The expiry instant of a credential, as [isLoginValid] reads it. *)
Definition expiry (loginData : LoginResultResponse) : Date :=
  Date_of (token_expires_at loginData * 1000).

(** ** The collaborators of [app.ts] *)

(** The content of the persistence store: the last persisted credential, or
    nothing. *)
Abbreviation Store := (option LoginResultResponse) (only parsing).

Definition TypeError_data : Exn :=
  "TypeError: Cannot read properties of undefined (reading 'data')".
Definition TypeError_param_data : Exn :=
  "TypeError: Cannot read properties of undefined (reading 'param_data')".

Section App.

Variable env : Env.

(** Modelled from the spec: the persistence store ([./persistence],
    [FilePersistence]) is missing from the sources.  [retrieve] returns the
    last persisted credential, or none if the store is empty; it may throw,
    as the environment says, and changes nothing. *)
Definition persistence_retrieve : M Store (option LoginResultResponse) :=
  fun h s =>
    match retrieve_fault env h with
    | Some e => (Throw e, [ERetrieve (Throw e)], s)
    | None => (Ok s, [ERetrieve (Ok s)], s)
    end.

(** Modelled from the spec: [store] persists the credential, overwriting
    any prior value; it may throw, as the environment says, and then writes
    nothing. *)
Definition persistence_store (c : LoginResultResponse) : M Store unit :=
  fun h s =>
    match store_fault env h c with
    | Some e => (Throw e, [EStore c (Throw e)], s)
    | None => (Ok tt, [EStore c (Ok tt)], Some c)
    end.

(** [new Date().getTime()] *)
Definition now {S} : M S Z :=
  fun h s => (Ok (clock env h), [ENow (clock env h)], s).

Definition login {S} : M S (ResultResponse LoginResultResponse) :=
  fun h s => perform (api_login env h) (ELogin (api_login env h)) h s.

Definition withLogin {S} (c : LoginResultResponse) : M S unit :=
  fun h s => perform (api_withLogin env h c) (EWithLogin c (api_withLogin env h c)) h s.

Definition siteHomepage {S} : M S (ApiResult SiteHomepageResponse) :=
  fun h s => perform (api_siteHomepage env h) (ESiteHomepage (api_siteHomepage env h)) h s.

Definition scenInfo {S} (id : string) : M S (ApiResult Json) :=
  fun h s => perform (api_scenInfo env h id) (EScenInfo id (api_scenInfo env h id)) h s.

Definition getSiteDeviceParam {S} (siteId paramType : string)
  : M S (ApiResult SiteDeviceParamResponse) :=
  fun h s =>
    perform (api_getSiteDeviceParam env h siteId paramType)
      (EGetSiteDeviceParam siteId paramType
         (api_getSiteDeviceParam env h siteId paramType)) h s.

Definition publish {S} (topic : string) (p : Payload) : M S unit :=
  fun h s => perform (mqtt_publish env h topic p) (EPublish topic p (mqtt_publish env h topic p)) h s.

Definition sleep {S} (ms : Z) : M S unit := emit (ESleep ms).

(** [r.data] where [r] may be [undefined]. *)
Definition get_data {S D} (r : ApiResult D) : M S (option D) :=
  match r with
  | Some resp => ret (data resp)
  | None => throw TypeError_data
  end.

(** [d.param_data] where [d] may be [undefined]. *)
Definition get_param_data {S} (d : option SiteDeviceParamResponse) : M S Json :=
  match d with
  | Some p => ret (param_data p)
  | None => throw TypeError_param_data
  end.

Definition homepage_payload (d : option SiteHomepageResponse) : Payload :=
  match d with Some x => PHomepage x | None => PUndefined end.

Definition scenInfo_payload (d : option Json) : Payload :=
  match d with Some x => PScenInfo x | None => PUndefined end.

(** [siteHomepage.data?.site_list ?? []] *)
Definition sites_of (d : option SiteHomepageResponse) : list Site :=
  match d with
  | Some x => match site_list x with Some l => l | None => [] end
  | None => []
  end.

Definition topic_site_homepage : string := mqttTopic env +++ "/site_homepage".
Definition topic_scenInfo (site : Site) : string :=
  mqttTopic env +++ "/site/" +++ site_name site +++ "/scenInfo".
Definition topic_schedule (site : Site) : string :=
  mqttTopic env +++ "/site/" +++ site_name site +++ "/schedule".

(** The branch of lines 31-37: log in, keep and persist the credential. *)
Definition refreshLogin : M Store (option LoginResultResponse) :=
  loginResponse <- login ;;
  match data loginResponse with
  | Some loginData => persistence_store loginData ;;; ret (Some loginData)
  | None =>
      emit (EError (MsgCouldNotLogIn (msg loginResponse) (code loginResponse))) ;;;
      ret None
  end.

(** Lines 29-40: the credential the cycle goes on with. *)
Definition obtainLogin : M Store (option LoginResultResponse) :=
  cached <- persistence_retrieve ;;
  match cached with
  | None => refreshLogin
  | Some loginData =>
      t <- now ;;
      if isLoginValid loginData (Date_of t)
      then emit (ELog MsgUsingCached) ;;; ret (Some loginData)
      else refreshLogin
  end.

(** The body of the loop over the sites, lines 47-84. *)
Definition siteBody (site : Site) : M Store unit :=
  scen <- scenInfo (site_id site) ;;
  scenData <- get_data scen ;;
  publish (topic_scenInfo site) (scenInfo_payload scenData) ;;;
  deviceParams <- getSiteDeviceParam (site_id site) (LoadConfiguration env) ;;
  paramsData <- get_data deviceParams ;;
  schedule <- get_param_data paramsData ;;
  publish (topic_schedule site) (PSchedule schedule) ;;;
  getSiteDeviceParam (site_id site) "3" ;;;
  getSiteDeviceParam (site_id site) "2" ;;;
  getSiteDeviceParam (site_id site) "1" ;;;
  getSiteDeviceParam (site_id site) "6" ;;;
  getSiteDeviceParam (site_id site) "6" ;;;
  ret tt.

(** Lines 42-86: what the cycle does with a credential. *)
Definition publishAll (loginData : LoginResultResponse) : M Store unit :=
  withLogin loginData ;;;
  home <- siteHomepage ;;
  homeData <- get_data home ;;
  publish topic_site_homepage (homepage_payload homeData) ;;;
  forOf (sites_of homeData) siteBody ;;;
  emit (ELog MsgPublished).

(** [fetchAndPublish], lines 27-90. *)
Definition fetchAndPublish : M Store unit :=
  emit (ELog MsgFetchingData) ;;;
  loginData <- obtainLogin ;;
  match loginData with
  | Some c => publishAll c
  | None => emit (EError MsgNotLoggedIn)
  end.

(** [config.pollInterval * 1000 - end], line 100. *)
Definition sleepInterval (start finish : Z) : Z :=
  pollInterval env * 1000 - (finish - start).

(** One turn of the loop [for (;;)], lines 93-102. *)
Definition iteration : M Store unit :=
  start <- now ;;
  try_catch fetchAndPublish (fun e => emit (EWarn e)) ;;;
  finish <- now ;;
  emit (ELog (MsgSleeping (sleepInterval start finish))) ;;;
  sleep (sleepInterval start finish).

(** The first [n] turns of the loop. *)
Fixpoint loop (n : nat) : M Store unit :=
  match n with
  | O => ret tt
  | S k => iteration ;;; loop k
  end.

(** [run], lines 15-104, cut after [n] turns of its loop.  Constructing the
    collaborators, before the loop, fails when the environment says so. *)
Definition run (n : nat) : M Store unit :=
  emit (ELog MsgConfig) ;;;
  match construct_fault env with
  | Some e => throw e
  | None => loop n
  end.



End App.

(** ** [ref/e1600.ts]: the class [SolixE1600] *)

Module E1600.

(** The two fields the methods below read and write:
    [this.config.loginCredentials] and whether [this.apiSession] is defined. *)
Record State : Type := mkState {
  loginCredentials : option LoginResultResponse;
  apiSession : bool
}.

Definition Error_unable_auth : Exn :=
  "Unable to retrieve auth_token during API login".
Definition Error_login_failed : Exn := "Login failed".
Definition Error_unable_sitehomepage : Exn := "Unable to retrieve Sitehomepage".
Definition Error_no_username : Exn := "No username provided".
Definition Error_no_password : Exn := "No password provided".

Definition TypeError_site_list : Exn :=
  "TypeError: Cannot read properties of undefined (reading 'site_list')".
Definition TypeError_length : Exn :=
  "TypeError: Cannot read properties of undefined (reading 'length')".
Definition TypeError_site_id : Exn :=
  "TypeError: Cannot read properties of undefined (reading 'site_id')".

(** An integer as JavaScript prints it when it is concatenated to a string. *)
Definition decimal (n : Z) : string := NilZero.string_of_int (Z.to_int n).

(** ['site out of range. Expected < ' + (sites.length - 1) + ' or valid
    site_id'], line 113. *)
Definition Error_out_of_range (count : nat) : Exn :=
  "site out of range. Expected < " +++ decimal (Z.of_nat count - 1)
    +++ " or valid site_id".

(** The configuration object the constructor receives: the fields of
    [Options] (declared in [./api]) that the class reads.  A string field
    may be absent. *)
Record Options : Type := mkOptions {
  username : option string;
  password : option string;
  country : option string;
  savedCredentials : option LoginResultResponse  (* [loginCredentials] *)
}.

(** [!s] for a string that may be absent: true for [undefined] and for the
    empty string. *)
Definition falsy (s : option string) : bool :=
  match s with
  | None | Some EmptyString => true
  | Some _ => false
  end.

(** The constructor, lines 43-54.  It first assigns [config.country] on the
    object it was given, then checks the user name and the password, then
    constructs the API client ([new SolixApi(config)], from [./api]), which
    throws when [apiFault] says so.  The result is the object given, as the
    constructor leaves it, and either the exception thrown or the state of
    the new instance, whose session is not defined yet. *)
Definition constructor (apiFault : option Exn) (config : Options)
  : Options * Outcome State :=
  let config' :=
    mkOptions (username config) (password config)
      (Some (match country config with Some c => c | None => "DE" end))
      (savedCredentials config) in
  if falsy (username config') then (config', Throw Error_no_username)
  else if falsy (password config') then (config', Throw Error_no_password)
  else
    match apiFault with
    | Some e => (config', Throw e)
    | None => (config', Ok (mkState (savedCredentials config') false))
    end.

(** [getSessionConfiguration], lines 124-126: [this.config], in which
    [loginCredentials] is what the instance holds now. *)
Definition getSessionConfiguration (config : Options) (st : State) : Options :=
  mkOptions (username config) (password config) (country config)
    (loginCredentials st).

(** The argument [site] of [_getSiteId]: absent, [null], [NaN], an integer,
    or a string (of ASCII characters, so that its length and its characters
    are those JavaScript sees). *)
Inductive SiteArg : Type :=
| ArgUndefined
| ArgNull
| ArgNaN
| ArgIndex (n : Z)
| ArgText (s : string).

(** What JavaScript's coercions make of a string: [isNaN(s)], the
    comparison [n < t] of a number with a string, and the array index a
    string denotes as a property key, if it denotes one. *)
Record JsText : Type := mkJsText {
  isNaN_text : string -> bool;
  lt_number_text : Z -> string -> bool;
  array_index_text : string -> option nat
}.

(** [ch.site_id] for a one-character string [ch]: a string has no such
    property. *)
Definition char_site_id (ch : Ascii.ascii) : option string := None.

(** The loop of lines 98-103 from index [i] on, with [count] sites left:
    [site[i]] is the [i]-th character of the string [site], or [undefined]
    past its end, where reading [site_id] throws.  The result is the index
    at which [site[i].site_id === site] held, if it ever did. *)
Fixpoint findSite (count i : nat) (site : string) : Outcome (option nat) :=
  match count with
  | O => Ok None
  | S count' =>
      match String.get i site with
      | None => Throw TypeError_site_id
      | Some ch =>
          match char_site_id ch with
          | Some id => if String.eqb id site then Ok (Some i)
                       else findSite count' (S i) site
          | None => findSite count' (S i) site
          end
      end
  end.

Section WithEnv.

Variable env : Env.

(** Lines 62-70. *)
Definition ensureCredentials : M State unit :=
  st <- get ;;
  match loginCredentials st with
  | Some _ => ret tt
  | None =>
      loginResponse <- login env ;;
      emit (EConsoleLog loginResponse) ;;;
      if code loginResponse =? 100053
      then throw (msg loginResponse)
      else put (mkState (data loginResponse) (apiSession st))
  end.

(** Lines 76-84. *)
Definition ensureSession (c : LoginResultResponse) : M State unit :=
  st <- get ;;
  if apiSession st then ret tt
  else
    try_catch
      (withLogin env c ;;; put (mkState (loginCredentials st) true))
      (fun e =>
         emit (EConsoleError e) ;;;
         put (mkState None (apiSession st)) ;;;
         throw Error_login_failed).

(** [_init], lines 61-85. *)
Definition _init : M State unit :=
  ensureCredentials ;;;
  st <- get ;;
  match loginCredentials st with
  | None => throw Error_unable_auth
  | Some c => ensureSession c
  end.

(** [getSitehomepage], lines 143-157. *)
Definition getSitehomepage : M State (option SiteHomepageResponse) :=
  _init ;;;
  sites <- siteHomepage env ;;
  match sites with
  | Some r => ret (data r)
  | None =>
      emit (ETimeout 1000) ;;;
      sites' <- siteHomepage env ;;
      match sites' with
      | Some r => ret (data r)
      | None => throw Error_unable_sitehomepage
      end
  end.

(** [getSites], lines 133-136: [sites.site_list], where [sites] is what
    [getSitehomepage] returned. *)
Definition getSites : M State (option (list Site)) :=
  sites <- getSitehomepage ;;
  match sites with
  | Some hp => ret (site_list hp)
  | None => throw TypeError_site_list
  end.

(** Lines 97-104: a string is looked up; any other argument is kept. *)
Definition lookupSite (sites : option (list Site)) (site : SiteArg)
  : M State SiteArg :=
  match site with
  | ArgText s =>
      match sites with
      | None => throw TypeError_length
      | Some l =>
          match findSite (List.length l) 0 s with
          | Ok (Some i) => ret (ArgIndex (Z.of_nat i))
          | Ok None => ret site
          | Throw e => throw e
          end
      end
  | _ => ret site
  end.

(** Lines 106-110: an absent or [NaN] index becomes 0. *)
Definition defaultIndex (js : JsText) (site : SiteArg) : SiteArg :=
  match site with
  | ArgUndefined | ArgNull | ArgNaN => ArgIndex 0
  | ArgIndex n => ArgIndex n
  | ArgText s => if isNaN_text js s then ArgIndex 0 else ArgText s
  end.

(** [sites[site_idx].site_id], line 116. *)
Definition siteIdAt (js : JsText) (l : list Site) (site_idx : SiteArg)
  : M State string :=
  let element :=
    match site_idx with
    | ArgIndex n => if 0 <=? n then nth_error l (Z.to_nat n) else None
    | ArgText s =>
        match array_index_text js s with
        | Some k => nth_error l k
        | None => None
        end
    | _ => None
    end in
  match element with
  | Some site => ret (site_id site)
  | None => throw TypeError_site_id
  end.

(** [sites.length < site_idx + 1], line 112: for a string, [+] is
    concatenation. *)
Definition beyondLast (js : JsText) (l : list Site) (site_idx : SiteArg) : bool :=
  match site_idx with
  | ArgIndex n => Z.of_nat (List.length l) <? n + 1
  | ArgText s => lt_number_text js (Z.of_nat (List.length l)) (s +++ "1")
  | _ => false
  end.

(** Lines 97-116: from the list of sites and the argument to the id. *)
Definition resolveSite (js : JsText) (sites : option (list Site))
    (site : SiteArg) : M State string :=
  site' <- lookupSite sites site ;;
  let site_idx := defaultIndex js site' in
  match sites with
  | None => throw TypeError_length
  | Some l =>
      if beyondLast js l site_idx
      then throw (Error_out_of_range (List.length l))
      else siteIdAt js l site_idx
  end.

(** [_getSiteId], lines 93-117. *)
Definition _getSiteId (js : JsText) (site : SiteArg) : M State string :=
  _init ;;;
  sites <- getSites ;;
  resolveSite js sites site.

(** [getSchedule], lines 165-173. *)
Definition getSchedule (js : JsText) (site : SiteArg) : M State Json :=
  siteId <- _getSiteId js site ;;
  deviceParams <- getSiteDeviceParam env siteId "4" ;;
  paramsData <- get_data deviceParams ;;
  get_param_data paramsData.

End WithEnv.

End E1600.

(** ** Reading a trace *)

(** The exception with which a recorded call failed, if it did. *)
Definition exn_of (ev : Event) : option Exn :=
  match ev with
  | ERetrieve (Throw e) | EStore _ (Throw e) | ELogin (Throw e)
  | EWithLogin _ (Throw e) | ESiteHomepage (Throw e) | EScenInfo _ (Throw e)
  | EGetSiteDeviceParam _ _ (Throw e) | EPublish _ _ (Throw e) => Some e
  | _ => None
  end.

Definition failed (ev : Event) : bool :=
  match exn_of ev with Some _ => true | None => false end.

(** The answers of the calls to [api.login()], in order. *)
Definition logins (evs : list Event)
  : list (Outcome (ResultResponse LoginResultResponse)) :=
  flat_map (fun ev => match ev with ELogin r => [r] | _ => [] end) evs.

(** The credentials passed to [persistence.store], in order. *)
Definition stores (evs : list Event) : list LoginResultResponse :=
  flat_map (fun ev => match ev with EStore c _ => [c] | _ => [] end) evs.

(** The topics passed to [publisher.publish], in order. *)
Definition published_topics (evs : list Event) : list string :=
  flat_map (fun ev => match ev with EPublish t _ _ => [t] | _ => [] end) evs.

(** The answers of the calls to [siteHomepage()], in order. *)
Definition homepage_calls (evs : list Event)
  : list (Outcome (ApiResult SiteHomepageResponse)) :=
  flat_map (fun ev => match ev with ESiteHomepage r => [r] | _ => [] end) evs.

(** What [persistence.retrieve] returned, in order. *)
Definition retrieved (evs : list Event)
  : list (Outcome (option LoginResultResponse)) :=
  flat_map (fun ev => match ev with ERetrieve r => [r] | _ => [] end) evs.

(** The sessions asked for, with what [api.withLogin] answered, in order. *)
Definition sessions (evs : list Event) : list (LoginResultResponse * Outcome unit) :=
  flat_map (fun ev => match ev with EWithLogin c r => [(c, r)] | _ => [] end) evs.

(** The delays of the timers set, in order. *)
Definition timeouts (evs : list Event) : list Z :=
  flat_map (fun ev => match ev with ETimeout ms => [ms] | _ => [] end) evs.

(** The durations passed to [sleep], in order. *)
Definition sleeps (evs : list Event) : list Z :=
  flat_map (fun ev => match ev with ESleep ms => [ms] | _ => [] end) evs.

(** The cycles begun: the occurrences of the log line "Fetching data". *)
Definition cycles_begun (evs : list Event) : nat :=
  List.length (filter (fun ev => match ev with ELog MsgFetchingData => true | _ => false end) evs).

Definition is_homepage_call (ev : Event) : bool :=
  match ev with ESiteHomepage _ => true | _ => false end.

(** Was scenario info (resp. the schedule) of [site] asked for? *)
Definition attempted_scenInfo (site : Site) (evs : list Event) : bool :=
  existsb (fun ev => match ev with
                     | EScenInfo id _ => String.eqb id (site_id site)
                     | _ => false
                     end) evs.

Definition attempted_schedule (env : Env) (site : Site) (evs : list Event) : bool :=
  existsb (fun ev => match ev with
                     | EGetSiteDeviceParam id pt _ =>
                         String.eqb id (site_id site)
                         && String.eqb pt (LoadConfiguration env)
                     | _ => false
                     end) evs.

(** What one pass of the loop body leaves in the trace when nothing throws:
    two publishes, fed by the first two answers, and five more retrievals
    whose answers [t3 t2 t1 t6 t6'] go nowhere. *)
Inductive site_block (env : Env) (site : Site) : list Event -> Prop :=
| site_block_intro
    (scen : ResultResponse Json)
    (params : ResultResponse SiteDeviceParamResponse)
    (pd : SiteDeviceParamResponse)
    (t3 t2 t1 t6 t6' : ApiResult SiteDeviceParamResponse) :
    data params = Some pd ->
    site_block env site
      [ EScenInfo (site_id site) (Ok (Some scen));
        EPublish (topic_scenInfo env site) (scenInfo_payload (data scen)) (Ok tt);
        EGetSiteDeviceParam (site_id site) (LoadConfiguration env) (Ok (Some params));
        EPublish (topic_schedule env site) (PSchedule (param_data pd)) (Ok tt);
        EGetSiteDeviceParam (site_id site) "3" (Ok t3);
        EGetSiteDeviceParam (site_id site) "2" (Ok t2);
        EGetSiteDeviceParam (site_id site) "1" (Ok t1);
        EGetSiteDeviceParam (site_id site) "6" (Ok t6);
        EGetSiteDeviceParam (site_id site) "6" (Ok t6') ].

(** One block per site, in the order of the list. *)
Inductive sites_trace (env : Env) : list Site -> list Event -> Prop :=
| sites_trace_nil : sites_trace env [] []
| sites_trace_cons site rest block evs :
    site_block env site block ->
    sites_trace env rest evs ->
    sites_trace env (site :: rest) (block ++ evs).

(** No call recorded in [evs] failed, except possibly the last one, and then
    the run threw what that call threw. *)
Inductive fail_last {A} : Outcome A -> list Event -> Prop :=
| fail_last_none r evs :
    Forall (fun ev => failed ev = false) evs ->
    fail_last r evs
| fail_last_abort e evs ev :
    Forall (fun ev => failed ev = false) evs ->
    exn_of ev = Some e ->
    fail_last (Throw e) (evs ++ [ev]).

(** Every event a computation can emit satisfies [P]. *)
Definition EvAll {S A} (P : Event -> Prop) (m : M S A) : Prop :=
  forall h s, Forall P (events (m h s)).

(** A computation aborts at the first call that fails. *)
Definition Aborting {S A} (m : M S A) : Prop :=
  forall h s, fail_last (outcome (m h s)) (events (m h s)).

(** What the two phases of a cycle can emit. *)
Definition auth_event (ev : Event) : Prop :=
  match ev with
  | ERetrieve _ | ENow _ | ELogin _ | EStore _ _
  | ELog MsgUsingCached | EError (MsgCouldNotLogIn _ _) => True
  | _ => False
  end.

Definition session_event (ev : Event) : Prop :=
  match ev with
  | EWithLogin _ _ | ESiteHomepage _ | EScenInfo _ _
  | EGetSiteDeviceParam _ _ _ | EPublish _ _ _ | ELog MsgPublished => True
  | _ => False
  end.

Definition site_event (ev : Event) : Prop :=
  match ev with
  | EScenInfo _ _ | EGetSiteDeviceParam _ _ _ | EPublish _ _ _ => True
  | _ => False
  end.

(** After the line "Fetching data", a cycle emits nothing but the events of
    its two phases and the line "Not logged in". *)
Definition cycle_event (ev : Event) : Prop :=
  auth_event ev \/ session_event ev \/ ev = EError MsgNotLoggedIn.

(** What the [catch] of the loop adds to the trace. *)
Definition caught {A} (r : Outcome A) : list Event :=
  match r with Ok _ => [] | Throw e => [EWarn e] end.

(** [api.login()] was called exactly once in [evs]; if it answered with a
    credential, [persistence.store] was called exactly once, with that
    credential, right after the login. *)
Definition login_then_store (evs : list Event) : Prop :=
  exists ans,
    logins evs = [ans] /\
    forall resp d,
      ans = Ok resp -> data resp = Some d ->
      stores evs = [d] /\
      exists pre r post, evs = pre ++ ELogin (Ok resp) :: EStore d r :: post.

(** Both per-site items of every site of [sites] were asked for in [evs]. *)
Definition all_sites_attempted (env : Env) (sites : list Site)
    (evs : list Event) : Prop :=
  forall site, In site sites ->
    attempted_scenInfo site evs = true /\
    attempted_schedule env site evs = true.

(** A computation preserves the property [Q] of the state. *)
Definition Preserves {S A} (Q : S -> Prop) (m : M S A) : Prop :=
  forall h s, Q s -> Q (final (m h s)).

(** The store holds a credential. *)
Definition holds_credential (s : Store) : Prop := s <> None.

(** What [_init] of [ref/e1600.ts] can emit. *)
Definition e1600_init_event (ev : Event) : Prop :=
  match ev with
  | ELogin _ | EConsoleLog _ | EWithLogin _ _ | EConsoleError _ => True
  | _ => False
  end.

(** The site and parameter type of the calls to [getSiteDeviceParam], in
    order. *)
Definition device_param_calls (evs : list Event) : list (string * string) :=
  flat_map (fun ev => match ev with
                      | EGetSiteDeviceParam id pt _ => [(id, pt)]
                      | _ => []
                      end) evs.

(** What entitles [fetchAndPublish] to pass [p] to the publisher on topic
    [t], given the events before, the latest first: the overview has just
    answered and [p] is its data, for the overview's topic; or scenario info
    has just answered and [p] is its data; or the device parameters have
    just answered with data, to the call made with
    [ParamType.LoadConfiguration] right after the publication of the
    scenario info of the same site, and [p] is their [param_data]. *)
Definition justified (env : Env) (before : list Event) (t : string)
    (p : Payload) : Prop :=
  match before with
  | ESiteHomepage (Ok (Some home)) :: _ =>
      p = homepage_payload (data home) /\
      t = mqttTopic env +++ "/site_homepage"
  | EScenInfo _ (Ok (Some scen)) :: _ => p = scenInfo_payload (data scen)
  | EGetSiteDeviceParam id paramType (Ok (Some params))
      :: EPublish _ _ (Ok _) :: EScenInfo id' (Ok (Some _)) :: _ =>
      paramType = LoadConfiguration env /\ id' = id /\
      exists pd, data params = Some pd /\ p = PSchedule (param_data pd)
  | _ => False
  end.

(** Every publish in [evs] is justified by the events before it; [before]
    holds the events before [evs], the latest first. *)
Fixpoint forwarding (env : Env) (before : list Event) (evs : list Event)
  : Prop :=
  match evs with
  | [] => True
  | ev :: rest =>
      match ev with
      | EPublish t p _ => justified env before t p
      | _ => True
      end /\ forwarding env (ev :: before) rest
  end.

(** [l] is the beginning of [full]. *)
Definition prefix_of {A} (l full : list A) : Prop :=
  exists rest, l ++ rest = full.

(** The topics a cycle publishes when the overview is [home] and nothing
    fails. *)
Definition all_topics (env : Env) (home : ResultResponse SiteHomepageResponse)
  : list string :=
  topic_site_homepage env
  :: flat_map (fun site => [topic_scenInfo env site; topic_schedule env site])
       (sites_of (data home)).


(** ** Concrete environments *)

Module Scenario.

Definition credential : LoginResultResponse := mkLogin "token" 3600.
Definition siteHome : Site := mkSite "site-1" "Home".
Definition siteA : Site := mkSite "id-A" "A".
Definition siteB : Site := mkSite "id-B" "B".

Definition homepage (l : list Site) : Outcome (ApiResult SiteHomepageResponse) :=
  Ok (Some (mkResponse 0 "success!" (Some (mkHomepage (Some l) "{}")))).

(** Topic prefix [anker], a poll interval of 60 s, a login that succeeds with
    [credential], a store and a publisher that never fail, and the given
    clock and session answers. *)
Definition make
    (clk : History -> Z)
    (session : Outcome unit)
    (home : History -> Outcome (ApiResult SiteHomepageResponse))
    (scen : string -> Outcome (ApiResult Json)) : Env :=
  mkEnv "anker" 60 "4" clk
    (fun _ => None) (fun _ _ => None)
    (fun _ => Ok (mkResponse 0 "success!" (Some credential)))
    (fun _ _ => session)
    home
    (fun _ id => scen id)
    (fun _ _ _ => Ok (Some (mkResponse 0 "success!" (Some (mkParam "{ranges}")))))
    (fun _ _ _ => Ok tt)
    None None.

Definition scen_ok (id : string) : Outcome (ApiResult Json) :=
  Ok (Some (mkResponse 0 "success!" (Some "{scene}"))).

(** Everything works; one site named [Home]; the clock stands at 0. *)
Definition healthy : Env :=
  make (fun _ => 0) (Ok tt) (fun _ => homepage [siteHome]) scen_ok.

(** The clock reads 0 at first and [t] from then on. *)
Definition clock_then (t : Z) (h : History) : Z :=
  match h with [] => 0 | _ => t end.

(** A cycle that takes [t] ms. *)
Definition taking (t : Z) : Env :=
  make (clock_then t) (Ok tt) (fun _ => homepage [siteHome]) scen_ok.

(** The clock stands at 4000000 ms, past the expiry of [credential]. *)
Definition late : Env :=
  make (fun _ => 4000000) (Ok tt) (fun _ => homepage [siteHome]) scen_ok.

(** [api.withLogin] throws, whatever the credential. *)
Definition bad_session : Env :=
  make (fun _ => 0) (Throw "bad token") (fun _ => homepage [siteHome]) scen_ok.

(** Two sites; scenario info of the first one is rejected. *)
Definition scen_A_fails : Env :=
  make (fun _ => 0) (Ok tt) (fun _ => homepage [siteA; siteB])
    (fun id => if String.eqb id "id-A" then Throw "scene down" else scen_ok id).

(** What a cycle in [scen_A_fails], started on an empty store, does before
    it asks for the scenario info of the first site. *)
Definition before_scen_A : list Event :=
  [ ELog MsgFetchingData; ERetrieve (Ok None);
    ELogin (Ok (mkResponse 0 "success!" (Some credential)));
    EStore credential (Ok tt);
    EWithLogin credential (Ok tt);
    ESiteHomepage (homepage [siteA; siteB]);
    EPublish "anker/site_homepage"
      (PHomepage (mkHomepage (Some [siteA; siteB]) "{}")) (Ok tt) ].

(** Two sites; the schedule of the first one is rejected. *)
Definition schedule_A_fails : Env :=
  mkEnv "anker" 60 "4" (fun _ => 0)
    (fun _ => None) (fun _ _ => None)
    (fun _ => Ok (mkResponse 0 "success!" (Some credential)))
    (fun _ _ => Ok tt)
    (fun _ => homepage [siteA; siteB])
    (fun _ id => scen_ok id)
    (fun _ id pt =>
       if String.eqb id "id-A" && String.eqb pt "4" then Throw "params down"
       else Ok (Some (mkResponse 0 "success!" (Some (mkParam "{ranges}")))))
    (fun _ _ _ => Ok tt)
    None None.

(** [siteHomepage()] resolves to [undefined] the first time it is called and
    to a proper response afterwards. *)
Definition home_undefined_once (h : History)
  : Outcome (ApiResult SiteHomepageResponse) :=
  if existsb is_homepage_call h then homepage [siteHome] else Ok None.

Definition flaky_homepage : Env :=
  make (fun _ => 0) (Ok tt) home_undefined_once scen_ok.

(** The overview answers without a [data] field. *)
Definition no_data : Env :=
  make (fun _ => 0) (Ok tt)
    (fun _ => Ok (Some (mkResponse 401 "unauthorized" None))) scen_ok.

(** The overview answers without a [data] field, and the publisher throws
    when it is given [undefined]. *)
Definition no_data_rejected : Env :=
  mkEnv "anker" 60 "4" (fun _ => 0)
    (fun _ => None) (fun _ _ => None)
    (fun _ => Ok (mkResponse 0 "success!" (Some credential)))
    (fun _ _ => Ok tt)
    (fun _ => Ok (Some (mkResponse 401 "unauthorized" None)))
    (fun _ id => scen_ok id)
    (fun _ _ _ => Ok (Some (mkResponse 0 "success!" (Some (mkParam "{ranges}")))))
    (fun _ _ p => match p with
                  | PUndefined => Throw "invalid payload"
                  | _ => Ok tt
                  end)
    None None.


(** The coercions of JavaScript on the strings used below: non-empty
    strings of decimal digits, on which they are computed, and site ids
    with a character that no numeric literal has, which are [NaN]. *)
Definition js : E1600.JsText :=
  E1600.mkJsText
    (fun s => match NilZero.uint_of_string s with Some _ => false | None => true end)
    (fun n t => match NilZero.uint_of_string t with
                | Some u => n <? Z.of_uint u
                | None => false
                end)
    (fun s => match NilZero.uint_of_string s with
              | Some u =>
                  if String.eqb (NilZero.string_of_uint (Decimal.unorm u)) s
                  then Some (Nat.of_uint u) else None
              | None => None
              end).

(** Two sites [siteA], [siteB]; everything works. *)
Definition two_sites : Env :=
  make (fun _ => 0) (Ok tt) (fun _ => homepage [siteA; siteB]) scen_ok.

(** The login is refused: a response with a message and no data. *)
Definition login_refused : Env :=
  mkEnv "anker" 60 "4" (fun _ => 0)
    (fun _ => None) (fun _ _ => None)
    (fun _ => Ok (mkResponse 26006 "wrong password" None))
    (fun _ _ => Ok tt)
    (fun _ => homepage [siteHome])
    (fun _ id => scen_ok id)
    (fun _ _ _ => Ok (Some (mkResponse 0 "success!" (Some (mkParam "{ranges}")))))
    (fun _ _ _ => Ok tt)
    None None.

(** A configuration with a user name and a password and nothing else. *)
Definition options : E1600.Options :=
  E1600.mkOptions (Some "user@example.org") (Some "secret") None None.

(** A new instance: no credential, no session. *)
Definition fresh : E1600.State := E1600.mkState None false.

End Scenario.

(** * Properties *)

(** ** The monad *)

Lemma bind_Ok_inv {S A B} (m : M S A) (f : A -> M S B) h s b evs s' :
  bind m f h s = (Ok b, evs, s') ->
  exists a e1 s1 e2,
    m h s = (Ok a, e1, s1) /\
    f a (h ++ e1) s1 = (Ok b, e2, s') /\
    evs = e1 ++ e2.
Proof.
  unfold bind. destruct (m h s) as [[[a|x] e1] s1]; [|discriminate].
  destruct (f a (h ++ e1) s1) as [[r e2] s2] eqn:Ef.
  intros E. inversion E; subst. exists a, e1, s1, e2. auto.
Qed.

Lemma EvAll_ret {S A} P (a : A) : EvAll P (@ret S A a).
Proof. intros h s. constructor. Qed.

Lemma EvAll_throw {S A} P e : EvAll P (@throw S A e).
Proof. intros h s. constructor. Qed.

Lemma EvAll_get {S} P : EvAll P (@get S).
Proof. intros h s. constructor. Qed.

Lemma EvAll_put {S} P (s0 : S) : EvAll P (put s0).
Proof. intros h s. constructor. Qed.

Lemma EvAll_emit {S} (P : Event -> Prop) ev : P ev -> EvAll P (@emit S ev).
Proof. intros H h s. repeat constructor. exact H. Qed.

Lemma EvAll_bind {S A B} P (m : M S A) (f : A -> M S B) :
  EvAll P m -> (forall a, EvAll P (f a)) -> EvAll P (bind m f).
Proof.
  intros Hm Hf h s. unfold bind. specialize (Hm h s).
  destruct (m h s) as [[[a|x] e1] s1]; cbn in *; [|exact Hm].
  specialize (Hf a (h ++ e1) s1).
  destruct (f a (h ++ e1) s1) as [[r e2] s2]; cbn in *.
  apply Forall_app; split; assumption.
Qed.

Lemma EvAll_try_catch {S A} P (m : M S A) (k : Exn -> M S A) :
  EvAll P m -> (forall e, EvAll P (k e)) -> EvAll P (try_catch m k).
Proof.
  intros Hm Hk h s. unfold try_catch. specialize (Hm h s).
  destruct (m h s) as [[[a|x] e1] s1]; cbn in *; [exact Hm|].
  specialize (Hk x (h ++ e1) s1).
  destruct (k x (h ++ e1) s1) as [[r e2] s2]; cbn in *.
  apply Forall_app; split; assumption.
Qed.

Lemma EvAll_forOf {S A} P (l : list A) (body : A -> M S unit) :
  (forall x, EvAll P (body x)) -> EvAll P (forOf l body).
Proof.
  intros Hb. induction l as [|x rest IH]; cbn [forOf].
  - apply EvAll_ret.
  - apply EvAll_bind; auto.
Qed.

(** The calls of [app.ts], one event each. *)
Section Calls.

Variable env : Env.
Variable P : Event -> Prop.

Lemma EvAll_retrieve :
  (forall r, P (ERetrieve r)) -> EvAll P (persistence_retrieve env).
Proof.
  intros H h s. unfold persistence_retrieve.
  destruct (retrieve_fault env h); repeat constructor; apply H.
Qed.

Lemma EvAll_store c :
  (forall r, P (EStore c r)) -> EvAll P (persistence_store env c).
Proof.
  intros H h s. unfold persistence_store.
  destruct (store_fault env h c); repeat constructor; apply H.
Qed.

Lemma EvAll_now {S} : (forall t, P (ENow t)) -> EvAll P (@now env S).
Proof. intros H h s. repeat constructor. apply H. Qed.

Lemma EvAll_login {S} : (forall r, P (ELogin r)) -> EvAll P (@login env S).
Proof. intros H h s. repeat constructor. apply H. Qed.

Lemma EvAll_withLogin {S} c :
  (forall r, P (EWithLogin c r)) -> EvAll P (@withLogin env S c).
Proof. intros H h s. repeat constructor. apply H. Qed.

Lemma EvAll_siteHomepage {S} :
  (forall r, P (ESiteHomepage r)) -> EvAll P (@siteHomepage env S).
Proof. intros H h s. repeat constructor. apply H. Qed.

Lemma EvAll_scenInfo {S} id :
  (forall r, P (EScenInfo id r)) -> EvAll P (@scenInfo env S id).
Proof. intros H h s. repeat constructor. apply H. Qed.

Lemma EvAll_getSiteDeviceParam {S} id pt :
  (forall r, P (EGetSiteDeviceParam id pt r)) ->
  EvAll P (@getSiteDeviceParam env S id pt).
Proof. intros H h s. repeat constructor. apply H. Qed.

Lemma EvAll_publish {S} t p :
  (forall r, P (EPublish t p r)) -> EvAll P (@publish env S t p).
Proof. intros H h s. repeat constructor. apply H. Qed.

Lemma EvAll_get_data {S D} (r : ApiResult D) : EvAll P (@get_data S D r).
Proof. destruct r; [apply EvAll_ret | apply EvAll_throw]. Qed.

Lemma EvAll_get_param_data {S} d : EvAll P (@get_param_data S d).
Proof. destruct d; [apply EvAll_ret | apply EvAll_throw]. Qed.

End Calls.

(** Decompose a computation into its calls; what is left are the side
    conditions [P ev], one per kind of event the computation can emit. *)
Ltac evall_step :=
  first
    [ apply EvAll_bind; [|intros ?]
    | apply EvAll_ret | apply EvAll_throw | apply EvAll_get | apply EvAll_put
    | apply EvAll_get_data | apply EvAll_get_param_data
    | apply EvAll_emit
    | apply EvAll_retrieve; intros ? | apply EvAll_store; intros ?
    | apply EvAll_now; intros ? | apply EvAll_login; intros ?
    | apply EvAll_withLogin; intros ? | apply EvAll_siteHomepage; intros ?
    | apply EvAll_scenInfo; intros ?
    | apply EvAll_getSiteDeviceParam; intros ?
    | apply EvAll_publish; intros ?
    | apply EvAll_forOf; intros ?
    | apply EvAll_try_catch; [|intros ?]
    | match goal with
      | |- EvAll _ (match ?x with _ => _ end) => destruct x
      | |- EvAll _ (if ?x then _ else _) => destruct x
      end ].

Ltac evall := repeat evall_step.

Lemma refreshLogin_events env : EvAll auth_event (refreshLogin env).
Proof. unfold refreshLogin. evall; exact I. Qed.

Lemma obtainLogin_events env : EvAll auth_event (obtainLogin env).
Proof.
  unfold obtainLogin. evall; try exact I; apply refreshLogin_events.
Qed.

Lemma siteBody_events env site : EvAll site_event (siteBody env site).
Proof. unfold siteBody. evall; exact I. Qed.

Lemma publishAll_events env c : EvAll session_event (publishAll env c).
Proof.
  unfold publishAll. evall; exact I.
Qed.

(** ** The shape of a cycle and of a turn of the loop *)

Lemma fetchAndPublish_unfold env h s :
  fetchAndPublish env h s =
  match obtainLogin env (h ++ [ELog MsgFetchingData]) s with
  | (Ok (Some c), e1, s1) =>
      match publishAll env c ((h ++ [ELog MsgFetchingData]) ++ e1) s1 with
      | (r, e2, s2) => (r, ELog MsgFetchingData :: e1 ++ e2, s2)
      end
  | (Ok None, e1, s1) =>
      (Ok tt, ELog MsgFetchingData :: e1 ++ [EError MsgNotLoggedIn], s1)
  | (Throw x, e1, s1) => (Throw x, ELog MsgFetchingData :: e1, s1)
  end.
Proof.
  unfold fetchAndPublish.
  generalize (obtainLogin env) as ol, (publishAll env) as pa. intros ol pa.
  unfold bind, emit. cbn.
  destruct (ol (h ++ [ELog MsgFetchingData]) s)
    as [[[[c|]|x] e1] s1]; cbn; try reflexivity.
  destruct (pa c ((h ++ [ELog MsgFetchingData]) ++ e1) s1)
    as [[r e2] s2]; reflexivity.
Qed.


Lemma fetchAndPublish_events env h s :
  exists rest,
    events (fetchAndPublish env h s) = ELog MsgFetchingData :: rest /\
    Forall cycle_event rest.
Proof.
  rewrite fetchAndPublish_unfold.
  pose proof (obtainLogin_events env (h ++ [ELog MsgFetchingData]) s) as Ha.
  destruct (obtainLogin env (h ++ [ELog MsgFetchingData]) s)
    as [[[[c|]|x] e1] s1]; cbn in Ha.
  - pose proof (publishAll_events env c ((h ++ [ELog MsgFetchingData]) ++ e1) s1) as Hp.
    destruct (publishAll env c ((h ++ [ELog MsgFetchingData]) ++ e1) s1)
      as [[r e2] s2]; cbn in Hp.
    exists (e1 ++ e2). split; [reflexivity|].
    apply Forall_app; split; (eapply Forall_impl; [|eassumption]);
      unfold cycle_event; tauto.
  - exists (e1 ++ [EError MsgNotLoggedIn]). split; [reflexivity|].
    apply Forall_app; split.
    + eapply Forall_impl; [|eassumption]. unfold cycle_event; tauto.
    + constructor; [|constructor]. right; right; reflexivity.
  - exists e1. split; [reflexivity|].
    eapply Forall_impl; [|eassumption]. unfold cycle_event; tauto.
Qed.


Lemma iteration_unfold env h s :
  iteration env h s =
  let start := clock env h in
  let cyc := fetchAndPublish env (h ++ [ENow start]) s in
  let body := events cyc ++ caught (outcome cyc) in
  let finish := clock env (h ++ ENow start :: body) in
  let d := sleepInterval env start finish in
  (Ok tt, ENow start :: body ++ [ENow finish; ELog (MsgSleeping d); ESleep d],
   final cyc).
Proof.
  unfold iteration. generalize (fetchAndPublish env) as fp. intros fp.
  unfold bind, try_catch, now, sleep, emit. cbn.
  destruct (fp (h ++ [ENow (clock env h)]) s)
    as [[[[]|x] cyc] s1]; cbn;
    repeat rewrite <- app_assoc; cbn; repeat rewrite app_nil_r;
    repeat rewrite <- app_assoc; reflexivity.
Qed.

Lemma flat_map_none {A B} (f : A -> list B) (P : A -> Prop) l :
  (forall x, P x -> f x = []) -> Forall P l -> flat_map f l = [].
Proof.
  intros Hf H. induction H as [|x l Hx _ IH]; cbn; [reflexivity|].
  rewrite (Hf x Hx), IH. reflexivity.
Qed.


(** Case analysis on an event of a cycle, for a side condition that only
    depends on the kind of the event. *)
Ltac by_kind :=
  let ev := fresh "ev" in
  let H := fresh "H" in
  intros ev H;
  repeat match type of H with
         | _ \/ _ => destruct H as [H|H]
         end;
  try (subst ev; reflexivity);
  destruct ev as [m|m| | | | | | | | | | | | | |];
  try destruct m; cbn in H; solve [destruct H | reflexivity].

Lemma cycle_no_sleep env h s : sleeps (events (fetchAndPublish env h s)) = [].
Proof.
  destruct (fetchAndPublish_events env h s) as (rest & -> & Hrest).
  cbn. eapply flat_map_none; [|exact Hrest]. unfold cycle_event. by_kind.
Qed.


(** ** The credential check *)

Lemma expiry_ms c e : expiry c = Some e -> e = token_expires_at c * 1000.
Proof.
  unfold expiry, Date_of.
  destruct (Z.abs (token_expires_at c * 1000) <=? 8640000000000000);
    congruence.
Qed.

(** C6.  [isLoginValid] is a function of the credential and of the time it
    is given, and of nothing else.  For a credential whose expiry instant is
    [e] and a current time [n] it answers true when [e] is strictly after
    [n] and false when [e] is at or before [n]. *)
Theorem isLoginValid_iff_expiry_after_now
    (c : LoginResultResponse) (e n : Z) :
  expiry c = Some e ->
  e = token_expires_at c * 1000 /\
  (n < e -> isLoginValid c (Some n) = true) /\
  (e <= n -> isLoginValid c (Some n) = false).
Proof.
  intros He. split; [apply expiry_ms; exact He|].
  unfold isLoginValid. fold (expiry c). rewrite He. cbn.
  split; intros H.
  - apply Z.ltb_lt. exact H.
  - apply Z.ltb_ge. exact H.
Qed.

Lemma isLoginValid_iff_expiry_after_now_witness :
  expiry Scenario.credential = Some 3600000 /\
  3600000 = token_expires_at Scenario.credential * 1000 /\
  isLoginValid Scenario.credential (Some 3599999) = true /\
  isLoginValid Scenario.credential (Some 3600000) = false.
Proof.
  split; [reflexivity|]. split; [|split].
  - apply (isLoginValid_iff_expiry_after_now Scenario.credential 3600000 0).
    reflexivity.
  - apply (isLoginValid_iff_expiry_after_now Scenario.credential 3600000 3599999);
      [reflexivity | lia].
  - apply (isLoginValid_iff_expiry_after_now Scenario.credential 3600000 3600000);
      [reflexivity | lia].
Defined.

(** ** The loop *)

(** C4, as the code has it.  The duration a turn of the loop logs and passes
    to [sleep] is the configured interval in milliseconds minus the time
    between the two clock readings around the cycle; it is passed as
    computed, whatever its sign. *)
Theorem sleep_is_interval_minus_elapsed (env : Env) (h : History) (s : Store) :
  exists (start finish : Z) (body : list Event),
    let d := pollInterval env * 1000 - (finish - start) in
    start = clock env h /\
    finish = clock env (h ++ ENow start :: body) /\
    events (iteration env h s) =
      ENow start :: body ++ [ENow finish; ELog (MsgSleeping d); ESleep d] /\
    sleeps (events (iteration env h s)) = [d].
Proof.
  rewrite iteration_unfold.
  set (start := clock env h).
  set (cyc := fetchAndPublish env (h ++ [ENow start]) s).
  set (body := events cyc ++ caught (outcome cyc)).
  exists start, (clock env (h ++ ENow start :: body)), body.
  cbn zeta. repeat split.
  unfold events at 1. cbn [fst snd]. unfold sleeps.
  cbn [flat_map app]. rewrite flat_map_app. subst body. rewrite flat_map_app.
  fold (sleeps (events cyc)). subst cyc. rewrite cycle_no_sleep.
  destruct (outcome (fetchAndPublish env (h ++ [ENow start]) s)); reflexivity.
Qed.

Example sleep_after_5000ms :
  sleeps (events (iteration (Scenario.taking 5000) [] None)) = [55000].
Proof. vm_compute. reflexivity. Qed.

Example sleep_after_65000ms :
  sleeps (events (iteration (Scenario.taking 65000) [] None)) = [-5000].
Proof. vm_compute. reflexivity. Qed.

(** C4, as the claim has it, fails: with an interval of 60000 ms and a cycle
    of 65000 ms the duration passed to [sleep] is -5000, not 0. *)
Lemma sleep_negative_on_overrun :
  pollInterval (Scenario.taking 65000) * 1000 = 60000 /\
  ~ (forall ms,
       In ms (sleeps (events (iteration (Scenario.taking 65000) [] None))) ->
       0 <= ms) /\
  sleeps (events (iteration (Scenario.taking 65000) [] None)) <> [0].
Proof.
  split; [reflexivity|]. split.
  - intros H. specialize (H (-5000)).
    assert (0 <= -5000) by (apply H; vm_compute; left; reflexivity). lia.
  - vm_compute. discriminate.
Qed.






(** ** Authentication *)

Lemma refreshLogin_cases env h s :
  refreshLogin env h s =
  match api_login env h with
  | Throw e => (Throw e, [ELogin (Throw e)], s)
  | Ok resp =>
      match data resp with
      | Some d =>
          match store_fault env (h ++ [ELogin (Ok resp)]) d with
          | Some e => (Throw e, [ELogin (Ok resp); EStore d (Throw e)], s)
          | None => (Ok (Some d), [ELogin (Ok resp); EStore d (Ok tt)], Some d)
          end
      | None =>
          (Ok None,
           [ELogin (Ok resp); EError (MsgCouldNotLogIn (msg resp) (code resp))],
           s)
      end
  end.
Proof.
  unfold refreshLogin, bind, login, perform, persistence_store, emit, ret.
  destruct (api_login env h) as [resp|e]; [|reflexivity].
  destruct (data resp) as [d|]; [|reflexivity].
  destruct (store_fault env (h ++ [ELogin (Ok resp)]) d); reflexivity.
Qed.

Lemma obtainLogin_cases env h s :
  obtainLogin env h s =
  match retrieve_fault env h with
  | Some e => (Throw e, [ERetrieve (Throw e)], s)
  | None =>
      match s with
      | Some c =>
          let t := clock env (h ++ [ERetrieve (Ok s)]) in
          if isLoginValid c (Date_of t)
          then (Ok (Some c), [ERetrieve (Ok s); ENow t; ELog MsgUsingCached], s)
          else
            match refreshLogin env (h ++ [ERetrieve (Ok s); ENow t]) s with
            | (r, e, s') => (r, ERetrieve (Ok s) :: ENow t :: e, s')
            end
      | None =>
          match refreshLogin env (h ++ [ERetrieve (Ok None)]) s with
          | (r, e, s') => (r, ERetrieve (Ok None) :: e, s')
          end
      end
  end.
Proof.
  unfold obtainLogin. generalize (refreshLogin env) as rl. intros rl.
  unfold bind, persistence_retrieve, now, emit, ret.
  destruct (retrieve_fault env h); [reflexivity|].
  destruct s as [c|].
  - cbv beta zeta.
    match goal with |- context [if ?b then _ else _] => destruct b end;
      [reflexivity|].
    rewrite <- app_assoc. cbn [app].
    match goal with |- context [rl ?h' ?s'] => destruct (rl h' s') as [[[r|x] e] s1] end;
      reflexivity.
  - destruct (rl (h ++ [ERetrieve (Ok None)]) None) as [[[r|x] e] s'];
      reflexivity.
Qed.

(** Once the credential is settled, a cycle neither logs in nor stores. *)
Lemma cycle_auth_split env h s :
  exists tail,
    events (fetchAndPublish env h s) =
      ELog MsgFetchingData
        :: events (obtainLogin env (h ++ [ELog MsgFetchingData]) s) ++ tail /\
    logins tail = [] /\ stores tail = [].
Proof.
  rewrite fetchAndPublish_unfold.
  destruct (obtainLogin env (h ++ [ELog MsgFetchingData]) s)
    as [[[[c|]|x] e1] s1].
  - pose proof (publishAll_events env c ((h ++ [ELog MsgFetchingData]) ++ e1) s1) as Hp.
    destruct (publishAll env c ((h ++ [ELog MsgFetchingData]) ++ e1) s1)
      as [[r e2] s2]; cbn in Hp.
    exists e2. split; [reflexivity|].
    split; (eapply flat_map_none; [|exact Hp]); by_kind.
  - exists [EError MsgNotLoggedIn]. repeat split.
  - exists []. cbn. rewrite app_nil_r. repeat split.
Qed.

Lemma refreshLogin_login_then_store env h s pre tail :
  logins pre = [] -> stores pre = [] ->
  logins tail = [] -> stores tail = [] ->
  login_then_store (pre ++ events (refreshLogin env h s) ++ tail).
Proof.
  intros Hlp Hsp Hlt Hst. exists (api_login env h).
  unfold logins, stores in *. rewrite !flat_map_app, Hlp, Hsp, Hlt, Hst.
  rewrite refreshLogin_cases.
  destruct (api_login env h) as [resp|e] eqn:El.
  - destruct (data resp) as [d|] eqn:Ed.
    + destruct (store_fault env (h ++ [ELogin (Ok resp)]) d);
        (split; [reflexivity|]);
        intros resp' d' Hr Hd; injection Hr as <-;
        rewrite Ed in Hd; injection Hd as <-;
        (split; [reflexivity|]);
        eexists pre, _, tail; cbn; reflexivity.
    + split; [reflexivity|].
      intros resp' d' Hr Hd. injection Hr as <-. congruence.
  - split; [reflexivity|]. intros resp' d' Hr. discriminate.
Qed.

(** C2.  In a cycle where the store returns a credential that
    [isLoginValid] accepts at the time read then, [api.login()] is not
    called.  In a cycle where the store returns nothing, or a credential
    that [isLoginValid] rejects, [api.login()] is called exactly once, and
    when it answers with a credential, [persistence.store] is called
    exactly once, with that credential, in the same cycle. *)
Theorem login_only_when_needed (env : Env) (h : History) (s : Store) :
  let evs := events (fetchAndPublish env h s) in
  (forall c t rest,
     evs = ELog MsgFetchingData :: ERetrieve (Ok (Some c)) :: ENow t :: rest ->
     isLoginValid c (Date_of t) = true ->
     logins evs = []) /\
  (forall c t rest,
     evs = ELog MsgFetchingData :: ERetrieve (Ok (Some c)) :: ENow t :: rest ->
     isLoginValid c (Date_of t) = false ->
     login_then_store evs) /\
  (forall rest,
     evs = ELog MsgFetchingData :: ERetrieve (Ok None) :: rest ->
     login_then_store evs).
Proof.
  cbn zeta.
  destruct (cycle_auth_split env h s) as (tail & -> & Hlt & Hst).
  rewrite obtainLogin_cases.
  set (h1 := h ++ [ELog MsgFetchingData]).
  destruct (retrieve_fault env h1) as [e|].
  { repeat split; intros; discriminate. }
  destruct s as [c0|]; cbn zeta.
  - set (t0 := clock env (h1 ++ [ERetrieve (Ok (Some c0))])).
    destruct (isLoginValid c0 (Date_of t0)) eqn:Hv.
    + repeat split.
      * intros c t rest _ _. unfold logins in *. cbn. exact Hlt.
      * intros c t rest E Hc. cbn in E. injection E as -> -> _. congruence.
      * intros rest E. discriminate.
    + pose proof (refreshLogin_login_then_store env
                    (h1 ++ [ERetrieve (Ok (Some c0)); ENow t0]) (Some c0)
                    [ELog MsgFetchingData; ERetrieve (Ok (Some c0)); ENow t0]
                    tail eq_refl eq_refl Hlt Hst) as Hls.
      destruct (refreshLogin env (h1 ++ [ERetrieve (Ok (Some c0)); ENow t0]) (Some c0))
        as [[r e] s'].
      repeat split.
      * intros c t rest E Hc. cbn in E. injection E as -> -> _. congruence.
      * intros c t rest _ _. exact Hls.
      * intros rest E. discriminate.
  - pose proof (refreshLogin_login_then_store env
                  (h1 ++ [ERetrieve (Ok None)]) None
                  [ELog MsgFetchingData; ERetrieve (Ok None)]
                  tail eq_refl eq_refl Hlt Hst) as Hls.
    destruct (refreshLogin env (h1 ++ [ERetrieve (Ok None)]) None)
      as [[r e] s'].
    repeat split.
    + intros c t rest E. discriminate.
    + intros c t rest E. discriminate.
    + intros rest _. exact Hls.
Qed.

Lemma login_only_when_needed_witness :
  logins (events (fetchAndPublish Scenario.healthy [] (Some Scenario.credential))) = [] /\
  login_then_store
    (events (fetchAndPublish Scenario.late [] (Some Scenario.credential))) /\
  login_then_store (events (fetchAndPublish Scenario.healthy [] None)).
Proof.
  split; [|split].
  - eapply (proj1 (login_only_when_needed Scenario.healthy []
                     (Some Scenario.credential))); reflexivity.
  - eapply (proj1 (proj2 (login_only_when_needed Scenario.late []
                            (Some Scenario.credential)))); reflexivity.
  - eapply (proj2 (proj2 (login_only_when_needed Scenario.healthy [] None)));
      reflexivity.
Defined.

Example fresh_login_is_stored :
  logins (events (fetchAndPublish Scenario.late [] (Some Scenario.credential)))
    = [Ok (mkResponse 0 "success!" (Some Scenario.credential))] /\
  stores (events (fetchAndPublish Scenario.late [] (Some Scenario.credential)))
    = [Scenario.credential].
Proof. vm_compute. split; reflexivity. Qed.

(** ** Failures inside a cycle *)

Lemma fail_last_app {A} (r : Outcome A) e1 e2 :
  Forall (fun ev => failed ev = false) e1 ->
  fail_last r e2 -> fail_last r (e1 ++ e2).
Proof.
  intros H1 H2. destruct H2 as [r evs H|e evs ev H He].
  - apply fail_last_none. apply Forall_app; split; assumption.
  - rewrite app_assoc. apply fail_last_abort; [|exact He].
    apply Forall_app; split; assumption.
Qed.

Lemma fail_last_Ok_clean {A} (a : A) evs :
  fail_last (Ok a) evs -> Forall (fun ev => failed ev = false) evs.
Proof. intros H. inversion H; subst. assumption. Qed.

Lemma Aborting_ret {S A} (a : A) : Aborting (@ret S A a).
Proof. intros h s. apply fail_last_none. constructor. Qed.

Lemma Aborting_throw {S A} e : Aborting (@throw S A e).
Proof. intros h s. apply fail_last_none. constructor. Qed.

Lemma Aborting_emit {S} ev : failed ev = false -> Aborting (@emit S ev).
Proof. intros H h s. apply fail_last_none. repeat constructor. exact H. Qed.

Lemma Aborting_perform {S A} (r : Outcome A) (ev : Event) :
  match r with
  | Ok _ => failed ev = false
  | Throw e => exn_of ev = Some e
  end ->
  Aborting (@perform S A r ev).
Proof.
  intros H h s. unfold perform, outcome, events. cbn.
  destruct r as [a|e].
  - apply fail_last_none. repeat constructor. exact H.
  - apply (fail_last_abort e [] ev); [constructor | exact H].
Qed.

Lemma Aborting_bind {S A B} (m : M S A) (f : A -> M S B) :
  Aborting m -> (forall a, Aborting (f a)) -> Aborting (bind m f).
Proof.
  intros Hm Hf h s. unfold bind. specialize (Hm h s).
  destruct (m h s) as [[[a|x] e1] s1]; cbn in *.
  - specialize (Hf a (h ++ e1) s1).
    destruct (f a (h ++ e1) s1) as [[r e2] s2]; cbn in *.
    apply fail_last_app; [|exact Hf]. eapply fail_last_Ok_clean; exact Hm.
  - inversion Hm as [r evs H|e evs ev H He]; subst.
    + apply fail_last_none. exact H.
    + apply fail_last_abort; assumption.
Qed.

Lemma Aborting_forOf {S A} (l : list A) (body : A -> M S unit) :
  (forall x, Aborting (body x)) -> Aborting (forOf l body).
Proof.
  intros Hb. induction l as [|x rest IH]; cbn [forOf].
  - apply Aborting_ret.
  - apply Aborting_bind; auto.
Qed.

Section AbortingCalls.

Variable env : Env.

Ltac abort_call f :=
  intros h s; unfold f; apply Aborting_perform;
  match goal with |- match ?r with _ => _ end => destruct r; reflexivity end.

Lemma Aborting_retrieve : Aborting (persistence_retrieve env).
Proof.
  intros h s. unfold persistence_retrieve.
  destruct (retrieve_fault env h) as [e|].
  - apply (fail_last_abort e [] (ERetrieve (Throw e))); [constructor|reflexivity].
  - apply fail_last_none. repeat constructor.
Qed.

Lemma Aborting_store c : Aborting (persistence_store env c).
Proof.
  intros h s. unfold persistence_store.
  destruct (store_fault env h c) as [e|].
  - apply (fail_last_abort e [] (EStore c (Throw e))); [constructor|reflexivity].
  - apply fail_last_none. repeat constructor.
Qed.

Lemma Aborting_now {S} : Aborting (@now env S).
Proof. intros h s. apply fail_last_none. repeat constructor. Qed.

Lemma Aborting_login {S} : Aborting (@login env S).
Proof. abort_call @login. Qed.

Lemma Aborting_withLogin {S} c : Aborting (@withLogin env S c).
Proof. abort_call @withLogin. Qed.

Lemma Aborting_siteHomepage {S} : Aborting (@siteHomepage env S).
Proof. abort_call @siteHomepage. Qed.

Lemma Aborting_scenInfo {S} id : Aborting (@scenInfo env S id).
Proof. abort_call @scenInfo. Qed.

Lemma Aborting_getSiteDeviceParam {S} id pt :
  Aborting (@getSiteDeviceParam env S id pt).
Proof. abort_call @getSiteDeviceParam. Qed.

Lemma Aborting_publish {S} t p : Aborting (@publish env S t p).
Proof. abort_call @publish. Qed.

Lemma Aborting_get_data {S D} (r : ApiResult D) : Aborting (@get_data S D r).
Proof. destruct r; [apply Aborting_ret | apply Aborting_throw]. Qed.

Lemma Aborting_get_param_data {S} d : Aborting (@get_param_data S d).
Proof. destruct d; [apply Aborting_ret | apply Aborting_throw]. Qed.

End AbortingCalls.

Ltac aborting_step :=
  first
    [ apply Aborting_bind; [|intros ?]
    | apply Aborting_ret | apply Aborting_throw
    | apply Aborting_get_data | apply Aborting_get_param_data
    | apply Aborting_emit; reflexivity
    | apply Aborting_retrieve | apply Aborting_store
    | apply Aborting_now | apply Aborting_login
    | apply Aborting_withLogin | apply Aborting_siteHomepage
    | apply Aborting_scenInfo | apply Aborting_getSiteDeviceParam
    | apply Aborting_publish
    | apply Aborting_forOf; intros ?
    | match goal with
      | |- Aborting (match ?x with _ => _ end) => destruct x
      | |- Aborting (if ?x then _ else _) => destruct x
      end ].

Lemma fetchAndPublish_Aborting env : Aborting (fetchAndPublish env).
Proof.
  unfold fetchAndPublish, obtainLogin, refreshLogin, publishAll, siteBody.
  repeat aborting_step.
Qed.

Lemma failed_not_inside (evs : list Event) pre ev post x :
  Forall (fun ev => failed ev = false) evs ->
  evs ++ [x] = pre ++ ev :: post ->
  failed ev = true -> post = [] /\ x = ev.
Proof.
  intros Hclean E Hev.
  destruct post as [|y post] using rev_ind.
  - apply app_inj_tail in E. destruct E as [_ ->]. auto.
  - clear IHpost.
    change (pre ++ ev :: post ++ [y]) with (pre ++ (ev :: post) ++ [y]) in E.
    rewrite app_assoc in E. apply app_inj_tail in E. destruct E as [-> _].
    apply Forall_app in Hclean. destruct Hclean as [_ Hclean].
    inversion Hclean; subst. congruence.
Qed.

(** C3, as the code has it.  A call that fails inside a cycle is the last
    thing the cycle does: nothing is attempted after it, neither the other
    item of that site nor any item of a later site, and the cycle throws
    what the call threw. *)
Theorem failed_call_ends_cycle
    (env : Env) (h : History) (s : Store)
    (pre post : list Event) (ev : Event) (e : Exn) :
  events (fetchAndPublish env h s) = pre ++ ev :: post ->
  exn_of ev = Some e ->
  post = [] /\ outcome (fetchAndPublish env h s) = Throw e.
Proof.
  intros E He.
  assert (Hf : failed ev = true) by (unfold failed; rewrite He; reflexivity).
  pose proof (fetchAndPublish_Aborting env h s) as Hab.
  rewrite E in Hab.
  inversion Hab as [r evs Hclean|e0 evs ev0 Hclean He0 Hr Hevs]; subst.
  - apply Forall_app in Hclean. destruct Hclean as [_ Hclean].
    inversion Hclean; subst. congruence.
  - destruct (failed_not_inside evs pre ev post ev0 Hclean Hevs Hf) as [-> ->].
    split; [reflexivity|]. congruence.
Qed.

Lemma failed_call_ends_cycle_witness :
  events (fetchAndPublish Scenario.scen_A_fails [] None) =
    Scenario.before_scen_A ++ EScenInfo "id-A" (Throw "scene down") :: [] /\
  exn_of (EScenInfo "id-A" (Throw "scene down")) = Some "scene down" /\
  ([] = ([] : list Event) /\
   outcome (fetchAndPublish Scenario.scen_A_fails [] None) = Throw "scene down").
Proof.
  split; [reflexivity|]. split; [reflexivity|].
  apply (failed_call_ends_cycle Scenario.scen_A_fails [] None
           Scenario.before_scen_A []
           (EScenInfo "id-A" (Throw "scene down")) "scene down");
    reflexivity.
Defined.

(** C3, as the claim has it, fails: with two sites, when scenario info of
    the first site is rejected, neither the schedule of that site nor any
    item of the second site is asked for in that cycle. *)
Lemma scenInfo_failure_skips_the_rest :
  let env := Scenario.scen_A_fails in
  let evs := events (fetchAndPublish env [] None) in
  homepage_calls evs = [Scenario.homepage [Scenario.siteA; Scenario.siteB]] /\
  attempted_schedule env Scenario.siteA evs = false /\
  attempted_scenInfo Scenario.siteB evs = false /\
  attempted_schedule env Scenario.siteB evs = false /\
  ~ all_sites_attempted env [Scenario.siteA; Scenario.siteB] evs.
Proof.
  cbv zeta. repeat (split; [vm_compute; reflexivity|]).
  intros H.
  destruct (H Scenario.siteB (or_intror (or_introl eq_refl))) as [H1 _].
  vm_compute in H1. discriminate.
Qed.

Example schedule_failure_skips_the_next_site :
  let env := Scenario.schedule_A_fails in
  let evs := events (fetchAndPublish env [] None) in
  attempted_scenInfo Scenario.siteA evs = true /\
  attempted_schedule env Scenario.siteA evs = true /\
  attempted_scenInfo Scenario.siteB evs = false /\
  attempted_schedule env Scenario.siteB evs = false /\
  outcome (fetchAndPublish env [] None) = Throw "params down".
Proof. vm_compute. repeat split. Qed.

(** ** A cycle that publishes *)

Lemma publishAll_cases env c h s :
  publishAll env c h s =
  match api_withLogin env h c with
  | Throw e => (Throw e, [EWithLogin c (Throw e)], s)
  | Ok u =>
      let h1 := h ++ [EWithLogin c (Ok u)] in
      match api_siteHomepage env h1 with
      | Throw e => (Throw e, [EWithLogin c (Ok u); ESiteHomepage (Throw e)], s)
      | Ok None =>
          (Throw TypeError_data, [EWithLogin c (Ok u); ESiteHomepage (Ok None)], s)
      | Ok (Some home) =>
          let h2 := h1 ++ [ESiteHomepage (Ok (Some home))] in
          let topic := topic_site_homepage env in
          let payload := homepage_payload (data home) in
          let opening r :=
            [EWithLogin c (Ok u); ESiteHomepage (Ok (Some home));
             EPublish topic payload r] in
          match mqtt_publish env h2 topic payload with
          | Throw e => (Throw e, opening (Throw e), s)
          | Ok v =>
              match forOf (sites_of (data home)) (siteBody env)
                      (h2 ++ [EPublish topic payload (Ok v)]) s with
              | (Ok _, e, s') => (Ok tt, opening (Ok v) ++ e ++ [ELog MsgPublished], s')
              | (Throw x, e, s') => (Throw x, opening (Ok v) ++ e, s')
              end
          end
      end
  end.
Proof.
  unfold publishAll. generalize (siteBody env) as body. intros body.
  unfold bind, withLogin, siteHomepage, publish, perform, get_data, emit,
    ret, throw.
  destruct (api_withLogin env h c) as [u|e]; [|reflexivity].
  cbv zeta.
  destruct (api_siteHomepage env (h ++ [EWithLogin c (Ok u)]))
    as [[home|]|e]; try reflexivity.
  cbn [app]. rewrite !app_nil_r.
  match goal with |- context [mqtt_publish env ?h' ?t ?p] =>
    destruct (mqtt_publish env h' t p) as [v|e] end; [|reflexivity].
  rewrite <- !app_assoc. cbn [app].
  match goal with |- context [forOf ?l body ?h' ?s'] =>
    destruct (forOf l body h' s') as [[[[]|x] ev] s1] end.
  - cbn [app]. rewrite ?app_nil_r. reflexivity.
  - cbn [app]. rewrite ?app_nil_r. reflexivity.
Qed.

(** Running the body of the loop over the sites, step by step. *)
Ltac run_body :=
  repeat match goal with
         | |- context [match ?x with _ => _ end] =>
             lazymatch x with
             | context [match _ with _ => _ end] => fail
             | _ => destruct x eqn:?; cbv beta iota; cbn [app];
                    try (intros; discriminate)
             end
         end.

Lemma siteBody_Ok env site h s evs s' :
  siteBody env site h s = (Ok tt, evs, s') -> site_block env site evs.
Proof.
  unfold siteBody, bind, scenInfo, getSiteDeviceParam, publish, perform,
    get_data, get_param_data, ret, throw.
  run_body.
  intros E. injection E as <- _.
  repeat match goal with u : unit |- _ => destruct u end.
  eapply site_block_intro. eassumption.
Qed.

Lemma forOf_siteBody_Ok env sites : forall h s evs s',
  forOf sites (siteBody env) h s = (Ok tt, evs, s') ->
  sites_trace env sites evs.
Proof.
  induction sites as [|site rest IH]; intros h s evs s' E.
  - injection E as <- _. constructor.
  - cbn [forOf] in E.
    apply bind_Ok_inv in E as ([] & e1 & s1 & e2 & E1 & E2 & ->).
    constructor.
    + eapply siteBody_Ok; exact E1.
    + eapply IH; exact E2.
Qed.

Lemma site_block_reading env site block :
  site_block env site block ->
  published_topics block = [topic_scenInfo env site; topic_schedule env site] /\
  homepage_calls block = [] /\
  Forall site_event block.
Proof.
  intros H. destruct H. repeat split. repeat constructor.
Qed.

Lemma sites_trace_reading env sites evs :
  sites_trace env sites evs ->
  published_topics evs =
    flat_map (fun site => [topic_scenInfo env site; topic_schedule env site]) sites /\
  homepage_calls evs = [].
Proof.
  intros H. induction H as [|site rest block evs Hb _ [IHt IHh]].
  - split; reflexivity.
  - destruct (site_block_reading env site block Hb) as (Ht & Hh & _).
    unfold published_topics, homepage_calls in *.
    rewrite !flat_map_app, Ht, Hh, IHt, IHh. split; reflexivity.
Qed.

Lemma auth_not_in l ev :
  Forall auth_event l -> In ev l -> auth_event ev.
Proof. intros H Hin. rewrite Forall_forall in H. auto. Qed.

(** The trace of a cycle that returns after logging "Published.". *)
Lemma published_cycle_shape env h s evs s' :
  fetchAndPublish env h s = (Ok tt, evs, s') ->
  In (ELog MsgPublished) evs ->
  exists auth c home site_evs,
    Forall auth_event auth /\
    evs = (ELog MsgFetchingData :: auth ++ [EWithLogin c (Ok tt)])
          ++ ESiteHomepage (Ok (Some home))
          :: EPublish (topic_site_homepage env) (homepage_payload (data home)) (Ok tt)
          :: site_evs ++ [ELog MsgPublished] /\
    sites_trace env (sites_of (data home)) site_evs.
Proof.
  rewrite fetchAndPublish_unfold.
  pose proof (obtainLogin_events env (h ++ [ELog MsgFetchingData]) s) as Ha.
  destruct (obtainLogin env (h ++ [ELog MsgFetchingData]) s)
    as [[[[c|]|x] e1] s1]; cbn in Ha.
  - rewrite publishAll_cases. cbv zeta.
    destruct (api_withLogin env _ c) as [[]|e]; [|discriminate].
    destruct (api_siteHomepage env _) as [[home|]|e]; try discriminate.
    destruct (mqtt_publish env _ _ _) as [[]|e]; [|discriminate].
    destruct (forOf (sites_of (data home)) (siteBody env) _ s1)
      as [[[[]|x] ev] s2] eqn:Ef; [|discriminate].
    intros E _. injection E as <- _.
    exists e1, c, home, ev. split; [exact Ha|]. split.
    + cbn [app]. rewrite <- app_assoc. reflexivity.
    + eapply forOf_siteBody_Ok. exact Ef.
  - intros E Hin. injection E as <- _.
    destruct Hin as [Hin|Hin]; [discriminate|].
    apply in_app_or in Hin. destruct Hin as [Hin|[Hin|[]]]; [|discriminate].
    apply (auth_not_in _ _ Ha) in Hin. destruct Hin.
  - discriminate.
Qed.

Lemma auth_reading l :
  Forall auth_event l -> published_topics l = [] /\ homepage_calls l = [].
Proof.
  intros H. split; (eapply flat_map_none; [|exact H]); by_kind.
Qed.

(** C5.  A cycle that returns after logging "Published." has asked for the
    overview once and has published, in this order and nothing else: the
    overview on [p/site_homepage], then for each site of the [site_list] of
    the overview's [data], in the order of that list, scenario info on
    [p/site/NAME/scenInfo] followed by the schedule on
    [p/site/NAME/schedule]; there is no site when [data] or [site_list] is
    absent. *)
Theorem publish_order
    (env : Env) (h : History) (s : Store) (evs : list Event) (s' : Store) :
  fetchAndPublish env h s = (Ok tt, evs, s') ->
  In (ELog MsgPublished) evs ->
  exists home,
    homepage_calls evs = [Ok (Some home)] /\
    published_topics evs =
      (mqttTopic env +++ "/site_homepage")
      :: flat_map
           (fun site =>
              [ mqttTopic env +++ "/site/" +++ site_name site +++ "/scenInfo";
                mqttTopic env +++ "/site/" +++ site_name site +++ "/schedule" ])
           (match data home with
            | Some overview =>
                match site_list overview with
                | Some l => l
                | None => []
                end
            | None => []
            end).
Proof.
  intros E Hin.
  destruct (published_cycle_shape env h s evs s' E Hin)
    as (auth & c & home & site_evs & Ha & -> & Hs).
  exists home.
  destruct (auth_reading auth Ha) as [Hat Hah].
  destruct (sites_trace_reading env _ _ Hs) as [Hst Hsh].
  unfold published_topics, homepage_calls in *.
  cbn [flat_map app]. rewrite !flat_map_app. cbn [flat_map app].
  rewrite !flat_map_app, Hat, Hah, Hst, Hsh. cbn.
  rewrite app_nil_r. split; reflexivity.
Qed.

Lemma publish_order_witness :
  fetchAndPublish Scenario.two_sites [] None =
    (Ok tt, events (fetchAndPublish Scenario.two_sites [] None),
     Some Scenario.credential) /\
  In (ELog MsgPublished) (events (fetchAndPublish Scenario.two_sites [] None)) /\
  published_topics (events (fetchAndPublish Scenario.two_sites [] None)) =
    [ "anker/site_homepage";
      "anker/site/A/scenInfo"; "anker/site/A/schedule";
      "anker/site/B/scenInfo"; "anker/site/B/schedule" ].
Proof.
  assert (Hrun : fetchAndPublish Scenario.two_sites [] None =
                 (Ok tt, events (fetchAndPublish Scenario.two_sites [] None),
                  Some Scenario.credential))
    by (vm_compute; reflexivity).
  assert (Hin : In (ELog MsgPublished)
                  (events (fetchAndPublish Scenario.two_sites [] None))).
  { vm_compute. repeat (first [left; reflexivity | right]). }
  split; [exact Hrun|]. split; [exact Hin|].
  destruct (publish_order Scenario.two_sites [] None
              (events (fetchAndPublish Scenario.two_sites [] None))
              (Some Scenario.credential) Hrun Hin) as (home & Hh & Ht).
  rewrite Ht. clear Ht.
  assert (Hhome : home = mkResponse 0 "success!"
                    (Some (mkHomepage (Some [Scenario.siteA; Scenario.siteB]) "{}"))).
  { vm_compute in Hh. injection Hh as Hh. symmetry. exact Hh. }
  subst home. vm_compute. reflexivity.
Defined.

Example topics_anker_Home :
  published_topics (events (fetchAndPublish Scenario.healthy [] None)) =
    ["anker/site_homepage"; "anker/site/Home/scenInfo"; "anker/site/Home/schedule"].
Proof. vm_compute. reflexivity. Qed.

Example calls_for_Home :
  flat_map (fun ev => match ev with
                      | EGetSiteDeviceParam id pt _ => [(id, pt)]
                      | _ => []
                      end)
    (events (fetchAndPublish Scenario.healthy [] None)) =
    [("site-1", "4"); ("site-1", "3"); ("site-1", "2"); ("site-1", "1");
     ("site-1", "6"); ("site-1", "6")].
Proof. vm_compute. reflexivity. Qed.

(** ** An overview without data *)

Lemma In_homepage_calls r evs :
  In (ESiteHomepage r) evs -> In r (homepage_calls evs).
Proof.
  intros H. unfold homepage_calls. apply in_flat_map.
  exists (ESiteHomepage r). split; [exact H | left; reflexivity].
Qed.

Lemma forOf_siteBody_no_homepage env sites h s :
  homepage_calls (events (forOf sites (siteBody env) h s)) = [].
Proof.
  eapply flat_map_none;
    [|apply (EvAll_forOf site_event sites (siteBody env) (siteBody_events env))].
  by_kind.
Qed.

(** The overview is asked for once the session is established, and only
    then. *)
Lemma publishAll_homepage_calls env c h s :
  homepage_calls (events (publishAll env c h s)) =
  match api_withLogin env h c with
  | Ok _ => [api_siteHomepage env (h ++ [EWithLogin c (Ok tt)])]
  | Throw _ => []
  end.
Proof.
  rewrite publishAll_cases. cbv zeta.
  destruct (api_withLogin env h c) as [[]|e]; [|reflexivity].
  destruct (api_siteHomepage env (h ++ [EWithLogin c (Ok tt)]))
    as [[home|]|e]; try reflexivity.
  destruct (mqtt_publish env _ _ _) as [v|e]; [|reflexivity].
  pose proof (forOf_siteBody_no_homepage env (sites_of (data home))
                ((h ++ [EWithLogin c (Ok tt)]) ++ [ESiteHomepage (Ok (Some home))]
                 ++ [EPublish (topic_site_homepage env)
                       (homepage_payload (data home)) (Ok v)]) s) as Hno.
  rewrite app_assoc in Hno.
  destruct (forOf (sites_of (data home)) (siteBody env) _ s)
    as [[[[]|x] ev] s1]; cbn in Hno;
    unfold events, homepage_calls in *; cbn [fst snd flat_map app];
    rewrite ?flat_map_app, Hno; reflexivity.
Qed.

Lemma publishAll_homepage_call env c h s r :
  In (ESiteHomepage r) (events (publishAll env c h s)) ->
  api_withLogin env h c = Ok tt /\
  api_siteHomepage env (h ++ [EWithLogin c (Ok tt)]) = r.
Proof.
  intros Hin. apply In_homepage_calls in Hin. revert Hin.
  rewrite publishAll_homepage_calls.
  destruct (api_withLogin env h c) as [[]|e]; [|intros []].
  intros [<-|[]]. split; reflexivity.
Qed.

(** C10, as the code has it.  When the overview call answers with a
    response that has no [data] field, the cycle passes [undefined] to the
    publisher on the topic [p/site_homepage], having published nothing
    before.  If that publish returns, the cycle publishes nothing else, logs
    "Published." and returns normally; if it throws, the cycle ends there
    with that exception. *)
Theorem overview_without_data_goes_on
    (env : Env) (h : History) (s : Store)
    (resp : ResultResponse SiteHomepageResponse) :
  let r := fetchAndPublish env h s in
  In (ESiteHomepage (Ok (Some resp))) (events r) ->
  data resp = None ->
  exists pre res,
    published_topics pre = [] /\
    events r =
      pre ++ ESiteHomepage (Ok (Some resp))
          :: EPublish (mqttTopic env +++ "/site_homepage") PUndefined res
          :: match res with
             | Ok _ => [ELog MsgPublished]
             | Throw _ => []
             end /\
    outcome r = res.
Proof.
  cbv zeta. rewrite fetchAndPublish_unfold.
  pose proof (obtainLogin_events env (h ++ [ELog MsgFetchingData]) s) as Ha.
  destruct (obtainLogin env (h ++ [ELog MsgFetchingData]) s)
    as [[[[c|]|x] e1] s1]; cbn in Ha.
  - set (h1 := (h ++ [ELog MsgFetchingData]) ++ e1).
    destruct (publishAll env c h1 s1) as [[r e2] s2] eqn:Ep.
    unfold events, outcome. cbn [fst snd].
    intros Hin Hd.
    assert (Hin2 : In (ESiteHomepage (Ok (Some resp))) e2).
    { destruct Hin as [Hin|Hin]; [discriminate|].
      apply in_app_or in Hin. destruct Hin as [Hin|Hin]; [|exact Hin].
      apply (auth_not_in _ _ Ha) in Hin. destruct Hin. }
    replace e2 with (events (publishAll env c h1 s1)) in Hin2
      by (rewrite Ep; reflexivity).
    apply publishAll_homepage_call in Hin2. destruct Hin2 as [Hw Hh].
    rewrite publishAll_cases, Hw in Ep. cbv zeta in Ep. rewrite Hh, Hd in Ep.
    cbn [homepage_payload sites_of forOf] in Ep.
    assert (Hpre : published_topics
                     (ELog MsgFetchingData :: e1 ++ [EWithLogin c (Ok tt)]) = []).
    { destruct (auth_reading e1 Ha) as [Hat _].
      unfold published_topics in *. cbn [flat_map app].
      rewrite flat_map_app, Hat. reflexivity. }
    destruct (mqtt_publish env _ (topic_site_homepage env) PUndefined)
      as [[]|e] eqn:Em.
    + unfold ret in Ep. injection Ep as <- <- _.
      exists (ELog MsgFetchingData :: e1 ++ [EWithLogin c (Ok tt)]), (Ok tt).
      split; [exact Hpre|]. split; [|reflexivity].
      cbn [app]. rewrite <- app_assoc. reflexivity.
    + injection Ep as <- <- _.
      exists (ELog MsgFetchingData :: e1 ++ [EWithLogin c (Ok tt)]), (Throw e).
      split; [exact Hpre|]. split; [|reflexivity].
      cbn [app]. rewrite <- app_assoc. reflexivity.
  - unfold events. cbn [fst snd]. intros Hin _. exfalso.
    destruct Hin as [Hin|Hin]; [discriminate|].
    apply in_app_or in Hin. destruct Hin as [Hin|[Hin|[]]]; [|discriminate].
    apply (auth_not_in _ _ Ha) in Hin. destruct Hin.
  - unfold events. cbn [fst snd]. intros Hin _. exfalso.
    destruct Hin as [Hin|Hin]; [discriminate|].
    apply (auth_not_in _ _ Ha) in Hin. destruct Hin.
Qed.

Lemma overview_without_data_goes_on_witness :
  let r := fetchAndPublish Scenario.no_data [] None in
  let r' := fetchAndPublish Scenario.no_data_rejected [] None in
  let resp := mkResponse 401 "unauthorized" None in
  (In (ESiteHomepage (Ok (Some resp))) (events r) /\
   data resp = None /\
   exists pre res,
     published_topics pre = [] /\
     events r =
       pre ++ ESiteHomepage (Ok (Some resp))
           :: EPublish "anker/site_homepage" PUndefined res
           :: match res with
              | Ok _ => [ELog MsgPublished]
              | Throw _ => []
              end /\
     outcome r = res) /\
  (In (ESiteHomepage (Ok (Some resp))) (events r') /\
   exists pre res,
     published_topics pre = [] /\
     events r' =
       pre ++ ESiteHomepage (Ok (Some resp))
           :: EPublish "anker/site_homepage" PUndefined res
           :: match res with
              | Ok _ => [ELog MsgPublished]
              | Throw _ => []
              end /\
     outcome r' = res) /\
  outcome r = Ok tt /\
  published_topics (events r) = ["anker/site_homepage"] /\
  outcome r' = Throw "invalid payload".
Proof.
  cbv zeta.
  assert (Hin : In (ESiteHomepage (Ok (Some (mkResponse 401 "unauthorized" None))))
                  (events (fetchAndPublish Scenario.no_data [] None))).
  { vm_compute. repeat (first [left; reflexivity | right]). }
  assert (Hin' : In (ESiteHomepage (Ok (Some (mkResponse 401 "unauthorized" None))))
                   (events (fetchAndPublish Scenario.no_data_rejected [] None))).
  { vm_compute. repeat (first [left; reflexivity | right]). }
  split; [|split].
  - split; [exact Hin|]. split; [reflexivity|].
    exact (overview_without_data_goes_on Scenario.no_data [] None
             (mkResponse 401 "unauthorized" None) Hin eq_refl).
  - split; [exact Hin'|].
    exact (overview_without_data_goes_on Scenario.no_data_rejected [] None
             (mkResponse 401 "unauthorized" None) Hin' eq_refl).
  - vm_compute. repeat split.
Defined.

(** C10, as the claim has it, fails: the overview answers without [data]
    and the publisher throws on the [undefined] it is given; the cycle
    aborts with that exception and never logs "Published.". *)
Lemma overview_without_data_may_abort :
  let r := fetchAndPublish Scenario.no_data_rejected [] None in
  let resp := mkResponse 401 "unauthorized" None in
  homepage_calls (events r) = [Ok (Some resp)] /\
  data resp = None /\
  In (EPublish "anker/site_homepage" PUndefined (Throw "invalid payload"))
    (events r) /\
  ~ (outcome r = Ok tt /\ In (ELog MsgPublished) (events r)).
Proof.
  cbv zeta. split; [reflexivity|]. split; [reflexivity|]. split.
  - vm_compute. repeat (first [left; reflexivity | right]).
  - intros [H _]. vm_compute in H. discriminate.
Qed.

Example no_data_trace :
  fetchAndPublish Scenario.no_data [] (Some Scenario.credential) =
    (Ok tt,
     [ ELog MsgFetchingData; ERetrieve (Ok (Some Scenario.credential));
       ENow 0; ELog MsgUsingCached;
       EWithLogin Scenario.credential (Ok tt);
       ESiteHomepage (Ok (Some (mkResponse 401 "unauthorized" None)));
       EPublish "anker/site_homepage" PUndefined (Ok tt);
       ELog MsgPublished ],
     Some Scenario.credential).
Proof. vm_compute. reflexivity. Qed.

(** ** A session that cannot be established *)

Lemma Preserves_bind {S A B} (Q : S -> Prop) (m : M S A) (f : A -> M S B) :
  Preserves Q m -> (forall a, Preserves Q (f a)) -> Preserves Q (bind m f).
Proof.
  intros Hm Hf h s Hs. unfold bind. specialize (Hm h s Hs).
  destruct (m h s) as [[[a|x] e1] s1]; cbn in *; [|exact Hm].
  specialize (Hf a (h ++ e1) s1 Hm).
  destruct (f a (h ++ e1) s1) as [[r e2] s2]; exact Hf.
Qed.

Lemma Preserves_forOf {S A} (Q : S -> Prop) (l : list A) (body : A -> M S unit) :
  (forall x, Preserves Q (body x)) -> Preserves Q (forOf l body).
Proof.
  intros Hb. induction l as [|x rest IH]; cbn [forOf].
  - intros h s Hs. exact Hs.
  - apply Preserves_bind; auto.
Qed.

(** A computation that leaves the state as it is. *)
Lemma Preserves_same {S A} (Q : S -> Prop) (m : M S A) :
  (forall h s, final (m h s) = s) -> Preserves Q m.
Proof. intros H h s Hs. rewrite H. exact Hs. Qed.

Lemma Preserves_store env c : Preserves holds_credential (persistence_store env c).
Proof.
  intros h s Hs. unfold persistence_store.
  destruct (store_fault env h c); cbn; [exact Hs | discriminate].
Qed.

Ltac preserves_step :=
  first
    [ apply Preserves_bind; [|intros ?]
    | apply Preserves_store
    | apply Preserves_forOf; intros ?
    | match goal with
      | |- Preserves _ (match ?x with _ => _ end) => destruct x
      | |- Preserves _ (if ?x then _ else _) => destruct x
      end
    | match goal with
      | |- Preserves _ (get_data ?r) => is_var r; destruct r; cbn [get_data]
      | |- Preserves _ (get_param_data ?d) =>
          is_var d; destruct d; cbn [get_param_data]
      end
    | apply Preserves_same; intros ? ?;
      unfold persistence_retrieve;
      try match goal with |- context [retrieve_fault ?e ?h] =>
            destruct (retrieve_fault e h) end;
      reflexivity ].

(** No cycle empties the store: [fetchAndPublish] calls [retrieve] and
    [store] and nothing else of the persistence. *)
Lemma cycle_never_clears_store env :
  Preserves holds_credential (fetchAndPublish env).
Proof.
  unfold fetchAndPublish, obtainLogin, refreshLogin, publishAll, siteBody.
  repeat preserves_step.
Qed.

Lemma iteration_never_clears_store env :
  Preserves holds_credential (iteration env).
Proof.
  intros h s Hs. rewrite iteration_unfold. cbv zeta. unfold final at 1.
  cbn [snd]. apply cycle_never_clears_store. exact Hs.
Qed.

(** In [ref/e1600.ts], [_init] forgets the credential with which
    [api.withLogin] has thrown. *)
Lemma E1600_init_forgets_bad_credential env h c e :
  api_withLogin env h c = Throw e ->
  E1600._init env h (E1600.mkState (Some c) false) =
    (Throw E1600.Error_login_failed,
     [EWithLogin c (Throw e); EConsoleError e],
     E1600.mkState None false).
Proof.
  intros Hw.
  unfold E1600._init, E1600.ensureCredentials, E1600.ensureSession,
    bind, try_catch, get, put, ret, throw, emit, withLogin, perform.
  cbn. rewrite !app_nil_r, Hw. reflexivity.
Qed.

(** ... and the next [_init], finding no credential, logs in again. *)
Lemma E1600_init_without_credential_logs_in env h b :
  logins (events (E1600._init env h (E1600.mkState None b))) = [api_login env h].
Proof.
  unfold E1600._init, E1600.ensureCredentials, E1600.ensureSession,
    bind, try_catch, get, put, ret, throw, emit, login, withLogin, perform.
  cbn. rewrite !app_nil_r.
  destruct (api_login env h) as [resp|e]; [|reflexivity]. cbn.
  destruct (code resp =? 100053); [reflexivity|]. cbn.
  destruct (data resp) as [d|]; [|reflexivity]. cbn.
  destruct b; [reflexivity|]. cbn.
  destruct (api_withLogin env _ d); reflexivity.
Qed.

(** C1 fails on [fetchAndPublish].  The store holds a credential that is
    still valid and [api.withLogin] throws: the cycle throws, the loop logs
    the warning, and the store still holds the credential; the next cycle
    retrieves it, finds it valid, does not log in, and fails the same way. *)
Theorem failed_session_keeps_credential :
  let env := Scenario.bad_session in
  let c := Scenario.credential in
  let r := loop env 2 [] (Some c) in
  isLoginValid c (Date_of (clock env [])) = true /\
  cycles_begun (events r) = 2%nat /\
  retrieved (events r) = [Ok (Some c); Ok (Some c)] /\
  sessions (events r) = [(c, Throw "bad token"); (c, Throw "bad token")] /\
  logins (events r) = [] /\
  stores (events r) = [] /\
  final r = Some c /\
  final (E1600._init env [] (E1600.mkState (Some c) false))
    = E1600.mkState None false /\
  logins (events (E1600._init env [] (E1600.mkState None false)))
    = [Ok (mkResponse 0 "success!" (Some c))].
Proof. vm_compute. repeat split. Qed.

(** ** Asking for the overview *)

Lemma cycle_no_timeout env h s : timeouts (events (fetchAndPublish env h s)) = [].
Proof.
  destruct (fetchAndPublish_events env h s) as (rest & -> & Hrest).
  cbn. eapply flat_map_none; [|exact Hrest]. unfold cycle_event. by_kind.
Qed.

(** A cycle asks for the overview at most once and sets no timer. *)
Lemma cycle_overview_at_most_once env h s :
  (List.length (homepage_calls (events (fetchAndPublish env h s))) <= 1)%nat /\
  timeouts (events (fetchAndPublish env h s)) = [].
Proof.
  split; [|apply cycle_no_timeout].
  rewrite fetchAndPublish_unfold.
  pose proof (obtainLogin_events env (h ++ [ELog MsgFetchingData]) s) as Ha.
  destruct (obtainLogin env (h ++ [ELog MsgFetchingData]) s)
    as [[[[c|]|x] e1] s1]; cbn in Ha;
    destruct (auth_reading e1 Ha) as [_ Hah].
  - pose proof (publishAll_homepage_calls env c
                  ((h ++ [ELog MsgFetchingData]) ++ e1) s1) as Hp.
    destruct (publishAll env c ((h ++ [ELog MsgFetchingData]) ++ e1) s1)
      as [[r e2] s2]. unfold events in *. cbn [fst snd] in *.
    unfold homepage_calls in *. cbn [flat_map app].
    rewrite flat_map_app, Hah, Hp.
    destruct (api_withLogin env _ c); cbn; lia.
  - unfold events, homepage_calls in *. cbn [fst snd flat_map app].
    rewrite flat_map_app, Hah. cbn. lia.
  - unfold events, homepage_calls in *. cbn [fst snd flat_map app].
    rewrite Hah. cbn. lia.
Qed.

Lemma E1600_getSitehomepage_cases env h st :
  E1600.getSitehomepage env h st =
  match E1600._init env h st with
  | (Throw x, e0, st0) => (Throw x, e0, st0)
  | (Ok _, e0, st0) =>
      match api_siteHomepage env (h ++ e0) with
      | Throw x => (Throw x, e0 ++ [ESiteHomepage (Throw x)], st0)
      | Ok (Some r) => (Ok (data r), e0 ++ [ESiteHomepage (Ok (Some r))], st0)
      | Ok None =>
          let h1 := (h ++ e0) ++ [ESiteHomepage (Ok None); ETimeout 1000] in
          let first := [ESiteHomepage (Ok None); ETimeout 1000] in
          match api_siteHomepage env h1 with
          | Throw x =>
              (Throw x, e0 ++ first ++ [ESiteHomepage (Throw x)], st0)
          | Ok (Some r) =>
              (Ok (data r), e0 ++ first ++ [ESiteHomepage (Ok (Some r))], st0)
          | Ok None =>
              (Throw E1600.Error_unable_sitehomepage,
               e0 ++ first ++ [ESiteHomepage (Ok None)], st0)
          end
      end
  end.
Proof.
  unfold E1600.getSitehomepage. generalize (E1600._init env) as init. intros init.
  unfold bind, siteHomepage, perform, emit, ret, throw.
  destruct (init h st) as [[[[]|x] e0] st0]; [|reflexivity].
  destruct (api_siteHomepage env (h ++ e0)) as [[r|]|x]; cbn [app];
    rewrite ?app_nil_r; try reflexivity.
  cbv zeta. rewrite <- !app_assoc. cbn [app].
  destruct (api_siteHomepage env _) as [[r|]|x]; cbn [app];
    rewrite ?app_nil_r; reflexivity.
Qed.

Lemma E1600_init_events env : EvAll e1600_init_event (E1600._init env).
Proof.
  unfold E1600._init, E1600.ensureCredentials, E1600.ensureSession.
  evall; exact I.
Qed.

(** In [ref/e1600.ts], [getSitehomepage] asks once; on [undefined] it waits
    1000 ms and asks once more; it throws its own error when both answers
    are [undefined]. *)
Lemma E1600_getSitehomepage_retries_once env h st e0 st0 :
  E1600._init env h st = (Ok tt, e0, st0) ->
  let r := E1600.getSitehomepage env h st in
  let first := api_siteHomepage env (h ++ e0) in
  let second :=
    api_siteHomepage env ((h ++ e0) ++ [ESiteHomepage (Ok None); ETimeout 1000]) in
  (first <> Ok None ->
     homepage_calls (events r) = [first] /\ timeouts (events r) = []) /\
  (first = Ok None ->
     homepage_calls (events r) = [first; second] /\
     timeouts (events r) = [1000] /\
     outcome r = match second with
                 | Ok (Some resp) => Ok (data resp)
                 | Ok None => Throw E1600.Error_unable_sitehomepage
                 | Throw x => Throw x
                 end).
Proof.
  intros Hi. cbv zeta. rewrite E1600_getSitehomepage_cases, Hi.
  pose proof (E1600_init_events env h st) as He. rewrite Hi in He. cbn in He.
  assert (Hh : homepage_calls e0 = [])
    by (eapply flat_map_none; [|exact He]; by_kind).
  assert (Ht : timeouts e0 = [])
    by (eapply flat_map_none; [|exact He]; by_kind).
  unfold events, outcome, homepage_calls, timeouts in *.
  split.
  - intros Hf.
    destruct (api_siteHomepage env (h ++ e0)) as [[r|]|x]; [| congruence |];
      cbn [fst snd]; rewrite !flat_map_app, Hh, Ht; split; reflexivity.
  - intros ->. cbv zeta.
    destruct (api_siteHomepage env _) as [[r|]|x]; cbn [fst snd];
      rewrite !flat_map_app, Hh, Ht; repeat split.
Qed.

(** C8 fails on [fetchAndPublish].  The first call of [siteHomepage()]
    resolves to [undefined]: the cycle has asked once, sets no timer, does
    not ask again and throws the [TypeError] of reading [data] off
    [undefined]; [getSitehomepage] of [ref/e1600.ts], in the same
    environment, waits 1000 ms, asks again and returns the overview. *)
Theorem overview_not_retried :
  let env := Scenario.flaky_homepage in
  let r := fetchAndPublish env [] None in
  let r' := E1600.getSitehomepage env [] (E1600.mkState None false) in
  homepage_calls (events r) = [Ok None] /\
  timeouts (events r) = [] /\
  outcome r = Throw TypeError_data /\
  published_topics (events r) = [] /\
  homepage_calls (events r') = [Ok None; Scenario.homepage [Scenario.siteHome]] /\
  timeouts (events r') = [1000] /\
  outcome r' = Ok (Some (mkHomepage (Some [Scenario.siteHome]) "{}")).
Proof. vm_compute. repeat split. Qed.

(** * Further properties of [app.ts] *)

(** ** The credential check over time *)

(** X1.  Time only takes validity away: a credential that [isLoginValid]
    rejects at some time is rejected at every later time, and one that it
    accepts at some time was accepted at every earlier time. *)
Theorem isLoginValid_antitone (c : LoginResultResponse) (n n' : Z) :
  n <= n' ->
  (isLoginValid c (Some n) = false -> isLoginValid c (Some n') = false) /\
  (isLoginValid c (Some n') = true -> isLoginValid c (Some n) = true).
Proof.
  intros Hle. unfold isLoginValid.
  destruct (Date_of (token_expires_at c * 1000)) as [e|]; cbn.
  - rewrite !Z.ltb_ge, !Z.ltb_lt. lia.
  - split; [reflexivity | discriminate].
Qed.

Lemma isLoginValid_antitone_witness :
  3600000 <= 3600001 /\
  isLoginValid Scenario.credential (Some 3600000) = false /\
  isLoginValid Scenario.credential (Some 3600001) = false /\
  5 <= 10 /\
  isLoginValid Scenario.credential (Some 10) = true /\
  isLoginValid Scenario.credential (Some 5) = true.
Proof.
  split; [lia|]. split; [reflexivity|]. split.
  - apply (isLoginValid_antitone Scenario.credential 3600000 3600001);
      [lia | reflexivity].
  - split; [lia|]. split; [reflexivity|].
    apply (isLoginValid_antitone Scenario.credential 5 10); [lia | reflexivity].
Defined.

(** ** The store across turns *)

Lemma loop_never_clears env n : Preserves holds_credential (loop env n).
Proof.
  induction n as [|n IH]; cbn [loop].
  - intros h s Hs. exact Hs.
  - apply Preserves_bind; [apply iteration_never_clears_store | intros _; exact IH].
Qed.

(** X2.  [run] never empties the store: when the store holds a credential
    before the loop, it holds one after any number of turns, whatever
    happened in the cycles. *)
Theorem run_never_clears_store
    (env : Env) (n : nat) (h : History) (s : Store) :
  s <> None -> final (run env n h s) <> None.
Proof.
  intros Hs. unfold run, bind, emit, throw. cbn.
  destruct (construct_fault env); [exact Hs|].
  pose proof (loop_never_clears env n (h ++ [ELog MsgConfig]) s Hs) as H.
  destruct (loop env n (h ++ [ELog MsgConfig]) s) as [[r e] s']. exact H.
Qed.

Lemma run_never_clears_store_witness :
  Some Scenario.credential <> None /\
  final (run Scenario.bad_session 3 [] (Some Scenario.credential)) <> None.
Proof.
  split; [discriminate|].
  apply (run_never_clears_store Scenario.bad_session 3 []
           (Some Scenario.credential)).
  discriminate.
Defined.

(** ** A login that brings no credential *)

Lemma publishAll_sessions env c h s :
  sessions (events (publishAll env c h s)) = [(c, api_withLogin env h c)].
Proof.
  rewrite publishAll_cases. cbv zeta.
  destruct (api_withLogin env h c) as [u|e]; [|reflexivity].
  destruct (api_siteHomepage env (h ++ [EWithLogin c (Ok u)]))
    as [[home|]|e]; try reflexivity.
  destruct (mqtt_publish env _ _ _) as [v|e]; [|reflexivity].
  match goal with |- context [forOf ?l ?b ?h' ?s'] =>
    pose proof (EvAll_forOf site_event l b (siteBody_events env) h' s') as Hs;
    destruct (forOf l b h' s') as [[[[]|x] ev] s1] end;
    cbn in Hs;
    assert (Hno : sessions ev = [])
      by (eapply flat_map_none; [|exact Hs]; by_kind);
    unfold events, sessions in *; cbn [fst snd flat_map app];
    rewrite ?flat_map_app, Hno; reflexivity.
Qed.

Lemma publishAll_no_auth env c h s :
  logins (events (publishAll env c h s)) = [] /\
  stores (events (publishAll env c h s)) = [] /\
  retrieved (events (publishAll env c h s)) = [].
Proof.
  pose proof (publishAll_events env c h s) as Hp.
  repeat split; (eapply flat_map_none; [|exact Hp]); by_kind.
Qed.

(** Case analysis on the membership of an event in a trace that is given
    cell by cell. *)
Ltac in_cases H :=
  repeat match type of H with
         | In _ (_ :: _) => destruct H as [H|H]; [try discriminate H|]
         | In _ [] => destruct H
         | In _ (_ ++ _) => apply in_app_or in H; destruct H as [H|H]
         | _ \/ _ => destruct H as [H|H]; [try discriminate H|]
         | False => destruct H
         end.

Lemma session_event_not_login r l :
  Forall session_event l -> ~ In (ELogin r) l.
Proof.
  intros H Hin. rewrite Forall_forall in H. exact (H _ Hin).
Qed.

(** X3.  When [api.login()] answers with a response that carries no
    credential, the cycle logs the refusal and "Not logged in" and returns
    normally: it stores nothing, asks for no session, publishes nothing and
    leaves the store as it was. *)
Theorem login_without_data_ends_cycle
    (env : Env) (h : History) (s : Store)
    (resp : ResultResponse LoginResultResponse) :
  let r := fetchAndPublish env h s in
  In (ELogin (Ok resp)) (events r) ->
  data resp = None ->
  outcome r = Ok tt /\
  final r = s /\
  stores (events r) = [] /\
  sessions (events r) = [] /\
  published_topics (events r) = [] /\
  exists pre,
    events r = pre ++ [ ELogin (Ok resp);
                        EError (MsgCouldNotLogIn (msg resp) (code resp));
                        EError MsgNotLoggedIn ].
Proof.
  cbv zeta. rewrite fetchAndPublish_unfold, obtainLogin_cases.
  set (h1 := h ++ [ELog MsgFetchingData]).
  intros Hin Hd. revert Hin.
  destruct (retrieve_fault env h1) as [e|].
  { unfold events; cbn [fst snd]. intros Hin. in_cases Hin. }
  assert (Hrefresh : forall h2 pre,
    (forall ev, In ev pre -> forall r, ev <> ELogin r) ->
    stores pre = [] -> sessions pre = [] -> published_topics pre = [] ->
    let r := match
        (match refreshLogin env h2 s with
         | (r, e, s') => (r, pre ++ e, s')
         end) with
      | (Ok (Some c), e1, s1) =>
          match publishAll env c (h1 ++ e1) s1 with
          | (r, e2, s2) => (r, ELog MsgFetchingData :: e1 ++ e2, s2)
          end
      | (Ok None, e1, s1) =>
          (Ok tt, ELog MsgFetchingData :: e1 ++ [EError MsgNotLoggedIn], s1)
      | (Throw x, e1, s1) => (Throw x, ELog MsgFetchingData :: e1, s1)
      end in
    In (ELogin (Ok resp)) (events r) ->
    outcome r = Ok tt /\ final r = s /\ stores (events r) = [] /\
    sessions (events r) = [] /\ published_topics (events r) = [] /\
    exists pre',
      events r = pre' ++ [ ELogin (Ok resp);
                           EError (MsgCouldNotLogIn (msg resp) (code resp));
                           EError MsgNotLoggedIn ]).
  { intros h2 pre Hpre Hst Hse Hpt. cbv zeta.
    rewrite refreshLogin_cases.
    destruct (api_login env h2) as [resp0|e].
    2:{ unfold events; cbn [fst snd]. intros Hin. exfalso.
        destruct Hin as [Hin|Hin]; [discriminate|].
        apply in_app_or in Hin. destruct Hin as [Hin|Hin].
        - exact (Hpre _ Hin _ eq_refl).
        - in_cases Hin. }
    destruct (data resp0) as [d|] eqn:Ed.
    - destruct (store_fault env (h2 ++ [ELogin (Ok resp0)]) d) as [e|].
      + unfold events; cbn [fst snd]. intros Hin. exfalso.
        destruct Hin as [Hin|Hin]; [discriminate|].
        apply in_app_or in Hin. destruct Hin as [Hin|Hin].
        * exact (Hpre _ Hin _ eq_refl).
        * in_cases Hin. injection Hin as ->. congruence.
      + pose proof (publishAll_events env d
                      (h1 ++ pre ++ [ELogin (Ok resp0); EStore d (Ok tt)])
                      (Some d)) as Hp.
        destruct (publishAll env d _ (Some d)) as [[r e2] s2].
        unfold events in *; cbn [fst snd] in *. intros Hin. exfalso.
        destruct Hin as [Hin|Hin]; [discriminate|].
        apply in_app_or in Hin. destruct Hin as [Hin|Hin].
        * apply in_app_or in Hin. destruct Hin as [Hin|Hin].
          -- exact (Hpre _ Hin _ eq_refl).
          -- in_cases Hin. injection Hin as ->. congruence.
        * exact (session_event_not_login _ _ Hp Hin).
    - unfold events, outcome, final; cbn [fst snd]. intros Hin.
      assert (resp0 = resp) as ->.
      { destruct Hin as [Hin|Hin]; [discriminate|].
        apply in_app_or in Hin. destruct Hin as [Hin|Hin].
        - apply in_app_or in Hin. destruct Hin as [Hin|Hin].
          + exfalso. exact (Hpre _ Hin _ eq_refl).
          + in_cases Hin. injection Hin as ->. reflexivity.
        - in_cases Hin. }
      unfold stores, sessions, published_topics in *.
      cbn [flat_map app]. rewrite !flat_map_app, Hst, Hse, Hpt.
      repeat (split; [reflexivity|]).
      exists (ELog MsgFetchingData :: pre). cbn [app].
      rewrite <- app_assoc. reflexivity. }
  destruct s as [c0|]; cbv zeta.
  - set (t0 := clock env (h1 ++ [ERetrieve (Ok (Some c0))])).
    destruct (isLoginValid c0 (Date_of t0)).
    + pose proof (publishAll_events env c0
                    (h1 ++ [ERetrieve (Ok (Some c0)); ENow t0; ELog MsgUsingCached])
                    (Some c0)) as Hp.
      destruct (publishAll env c0 _ (Some c0)) as [[r e2] s2].
      unfold events in *; cbn [fst snd] in *. intros Hin. exfalso.
      in_cases Hin. exact (session_event_not_login _ _ Hp Hin).
    + apply (Hrefresh (h1 ++ [ERetrieve (Ok (Some c0)); ENow t0])
               [ERetrieve (Ok (Some c0)); ENow t0]); try reflexivity.
      intros ev Hev r. in_cases Hev; subst ev; discriminate.
  - apply (Hrefresh (h1 ++ [ERetrieve (Ok None)]) [ERetrieve (Ok None)]);
      try reflexivity.
    intros ev Hev r. in_cases Hev; subst ev; discriminate.
Qed.

Lemma login_without_data_ends_cycle_witness :
  let r := fetchAndPublish Scenario.login_refused [] None in
  let resp := mkResponse 26006 "wrong password" None in
  In (ELogin (Ok resp)) (events r) /\
  data resp = None /\
  outcome r = Ok tt /\
  final r = None /\
  stores (events r) = [] /\
  sessions (events r) = [] /\
  published_topics (events r) = [] /\
  exists pre,
    events r = pre ++ [ ELogin (Ok resp);
                        EError (MsgCouldNotLogIn (msg resp) (code resp));
                        EError MsgNotLoggedIn ].
Proof.
  cbv zeta.
  assert (Hin : In (ELogin (Ok (mkResponse 26006 "wrong password" None)))
                  (events (fetchAndPublish Scenario.login_refused [] None))).
  { vm_compute. repeat (first [left; reflexivity | right]). }
  split; [exact Hin|]. split; [reflexivity|].
  apply (login_without_data_ends_cycle Scenario.login_refused [] None
           (mkResponse 26006 "wrong password" None) Hin eq_refl).
Defined.

(** ** The credential of the session *)

Lemma publishAll_head env c h s :
  exists post,
    events (publishAll env c h s) = EWithLogin c (api_withLogin env h c) :: post.
Proof.
  rewrite publishAll_cases. cbv zeta.
  destruct (api_withLogin env h c) as [[]|e]; [|eexists; reflexivity].
  destruct (api_siteHomepage env _) as [[home|]|e]; try (eexists; reflexivity).
  destruct (mqtt_publish env _ _ _) as [v|e]; [|eexists; reflexivity].
  destruct (forOf _ _ _ s) as [[[[]|x] ev] s1]; eexists; reflexivity.
Qed.

(** X4.  A cycle asks for at most one session.  Either the store returned a
    credential that [isLoginValid] accepted: then the cycle has made no
    login and no store, and passes that credential to [api.withLogin] right
    after the line "Using cached auth data".  Or the cycle has logged in
    once, has passed the credential of the answer to [persistence.store],
    which returned, and passes it to [api.withLogin] right after that, the
    only store of the cycle. *)
Theorem session_uses_obtained_credential
    (env : Env) (h : History) (s : Store) :
  let evs := events (fetchAndPublish env h s) in
  sessions evs = [] \/
  exists c r,
    sessions evs = [(c, r)] /\
    ((exists t post,
        evs = ELog MsgFetchingData :: ERetrieve (Ok (Some c)) :: ENow t
              :: ELog MsgUsingCached :: EWithLogin c r :: post /\
        isLoginValid c (Date_of t) = true /\
        logins evs = [] /\ stores evs = [])
     \/
     (exists resp pre post,
        evs = pre ++ ELogin (Ok resp) :: EStore c (Ok tt)
                  :: EWithLogin c r :: post /\
        data resp = Some c /\
        logins evs = [Ok resp] /\ stores evs = [c])).
Proof.
  cbv zeta. rewrite fetchAndPublish_unfold, obtainLogin_cases.
  set (h1 := h ++ [ELog MsgFetchingData]).
  destruct (retrieve_fault env h1) as [e|]; [left; reflexivity|].
  assert (Hrefresh : forall h2 pre,
    logins pre = [] -> stores pre = [] -> sessions pre = [] ->
    let evs := events
      match
        (match refreshLogin env h2 s with
         | (r, e, s') => (r, pre ++ e, s')
         end) with
      | (Ok (Some c), e1, s1) =>
          match publishAll env c (h1 ++ e1) s1 with
          | (r, e2, s2) => (r, ELog MsgFetchingData :: e1 ++ e2, s2)
          end
      | (Ok None, e1, s1) =>
          (Ok tt, ELog MsgFetchingData :: e1 ++ [EError MsgNotLoggedIn], s1)
      | (Throw x, e1, s1) => (Throw x, ELog MsgFetchingData :: e1, s1)
      end in
    sessions evs = [] \/
    exists c r,
      sessions evs = [(c, r)] /\
      exists resp pre' post,
        evs = pre' ++ ELogin (Ok resp) :: EStore c (Ok tt)
                   :: EWithLogin c r :: post /\
        data resp = Some c /\ logins evs = [Ok resp] /\ stores evs = [c]).
  { intros h2 pre Hl Hst Hse. cbv zeta. rewrite refreshLogin_cases.
    destruct (api_login env h2) as [resp0|e].
    2:{ left. unfold events, sessions in *. cbn [fst snd flat_map app].
        rewrite ?flat_map_app, Hse. reflexivity. }
    destruct (data resp0) as [d|] eqn:Ed.
    - destruct (store_fault env (h2 ++ [ELogin (Ok resp0)]) d) as [e|].
      + left. unfold events, sessions in *. cbn [fst snd flat_map app].
        rewrite ?flat_map_app, Hse. reflexivity.
      + right.
        pose proof (publishAll_sessions env d
                      (h1 ++ pre ++ [ELogin (Ok resp0); EStore d (Ok tt)])
                      (Some d)) as Hps.
        destruct (publishAll_no_auth env d
                      (h1 ++ pre ++ [ELogin (Ok resp0); EStore d (Ok tt)])
                      (Some d)) as (Hpl & Hpst & _).
        destruct (publishAll_head env d
                      (h1 ++ pre ++ [ELogin (Ok resp0); EStore d (Ok tt)])
                      (Some d)) as [post Hhead].
        destruct (publishAll env d _ (Some d)) as [[r e2] s2].
        unfold events, logins, stores, sessions in *. cbn [fst snd] in *.
        eexists d, _. cbn [flat_map app].
        rewrite ?flat_map_app, Hse, Hps. split; [reflexivity|].
        exists resp0, (ELog MsgFetchingData :: pre), post.
        rewrite ?flat_map_app, Hl, Hst, Hpl, Hpst.
        split; [|repeat split; exact Ed].
        rewrite Hhead. cbn [app]. rewrite <- app_assoc. reflexivity.
    - left. unfold events, sessions in *. cbn [fst snd flat_map app].
      rewrite ?flat_map_app, Hse. reflexivity. }
  destruct s as [c0|]; cbv zeta.
  - set (t0 := clock env (h1 ++ [ERetrieve (Ok (Some c0))])).
    destruct (isLoginValid c0 (Date_of t0)) eqn:Hv.
    + right.
      pose proof (publishAll_sessions env c0
                    (h1 ++ [ERetrieve (Ok (Some c0)); ENow t0; ELog MsgUsingCached])
                    (Some c0)) as Hps.
      destruct (publishAll_no_auth env c0
                    (h1 ++ [ERetrieve (Ok (Some c0)); ENow t0; ELog MsgUsingCached])
                    (Some c0)) as (Hpl & Hpst & Hpr).
      destruct (publishAll_head env c0
                    (h1 ++ [ERetrieve (Ok (Some c0)); ENow t0; ELog MsgUsingCached])
                    (Some c0)) as [post Hhead].
      destruct (publishAll env c0 _ (Some c0)) as [[r e2] s2].
      unfold events, logins, stores, sessions in *.
      cbn [fst snd] in *.
      eexists c0, _. cbn [flat_map app]. rewrite Hps.
      split; [reflexivity|]. left. exists t0, post.
      rewrite Hpl, Hpst. split; [|repeat split; assumption].
      rewrite Hhead. reflexivity.
    + destruct (Hrefresh (h1 ++ [ERetrieve (Ok (Some c0)); ENow t0])
                  [ERetrieve (Ok (Some c0)); ENow t0] eq_refl eq_refl eq_refl)
        as [H|(c & r & H1 & H2)]; [left; exact H|].
      right. exists c, r. split; [exact H1|]. right. exact H2.
  - destruct (Hrefresh (h1 ++ [ERetrieve (Ok None)])
                [ERetrieve (Ok None)] eq_refl eq_refl eq_refl)
      as [H|(c & r & H1 & H2)]; [left; exact H|].
    right. exists c, r. split; [exact H1|]. right. exact H2.
Qed.

Example session_credentials :
  sessions (events (fetchAndPublish Scenario.healthy [] None))
    = [(Scenario.credential, Ok tt)] /\
  sessions (events (fetchAndPublish Scenario.login_refused [] None)) = [].
Proof. vm_compute. split; reflexivity. Qed.

(** ** What a failing cycle has published *)

(** Running the body of the loop over the sites, every case to its end. *)
Ltac run_cases :=
  repeat match goal with
         | |- context [match ?x with _ => _ end] =>
             lazymatch x with
             | context [match _ with _ => _ end] => fail
             | _ => destruct x eqn:?; cbv beta iota; cbn [app]
             end
         end.

Lemma siteBody_topics_prefix env site h s :
  prefix_of (published_topics (events (siteBody env site h s)))
    [topic_scenInfo env site; topic_schedule env site].
Proof.
  unfold siteBody, bind, scenInfo, getSiteDeviceParam, publish, perform,
    get_data, get_param_data, ret, throw.
  run_cases;
    unfold prefix_of, events, published_topics; cbn [fst snd flat_map app];
    eexists; reflexivity.
Qed.

Lemma forOf_topics_prefix env sites : forall h s,
  prefix_of (published_topics (events (forOf sites (siteBody env) h s)))
    (flat_map (fun site => [topic_scenInfo env site; topic_schedule env site])
       sites).
Proof.
  induction sites as [|site rest IH]; intros h s.
  - exists []. reflexivity.
  - cbn [forOf flat_map]. unfold bind.
    pose proof (siteBody_topics_prefix env site h s) as Hp.
    destruct (siteBody env site h s) as [[[[]|x] e1] s1] eqn:E1.
    + apply siteBody_Ok in E1. apply site_block_reading in E1.
      destruct E1 as (Ht & _ & _).
      destruct (IH (h ++ e1) s1) as [rest' Hr].
      destruct (forOf rest (siteBody env) (h ++ e1) s1) as [[r e2] s2].
      unfold events, published_topics in *. cbn [fst snd] in *.
      exists rest'. rewrite flat_map_app, Ht, <- app_assoc, Hr. reflexivity.
    + destruct Hp as [rest' Hr]. unfold events in *. cbn [fst snd] in *.
      exists (rest' ++ flat_map
                (fun site => [topic_scenInfo env site; topic_schedule env site])
                rest).
      rewrite app_assoc, Hr. reflexivity.
Qed.

Lemma publishAll_topics_prefix env c h s :
  published_topics (events (publishAll env c h s)) = [] \/
  exists home,
    api_withLogin env h c = Ok tt /\
    api_siteHomepage env (h ++ [EWithLogin c (Ok tt)]) = Ok (Some home) /\
    prefix_of (published_topics (events (publishAll env c h s)))
      (all_topics env home).
Proof.
  rewrite publishAll_cases. cbv zeta.
  destruct (api_withLogin env h c) as [[]|e]; [|left; reflexivity].
  destruct (api_siteHomepage env (h ++ [EWithLogin c (Ok tt)]))
    as [[home|]|e]; try (left; reflexivity).
  right. exists home. split; [reflexivity|]. split; [reflexivity|].
  unfold all_topics.
  destruct (mqtt_publish env _ _ _) as [v|e].
  - match goal with |- context [forOf ?l ?b ?h' ?s'] =>
      destruct (forOf_topics_prefix env l h' s') as [rest Hr];
      destruct (forOf l b h' s') as [[[[]|x] ev] s1] end;
      unfold events, published_topics in *; cbn [fst snd flat_map app] in *;
      exists rest; rewrite ?flat_map_app; cbn [flat_map app];
      rewrite <- ?app_assoc; cbn [app]; rewrite Hr; reflexivity.
  - eexists. unfold events, published_topics. cbn [fst snd flat_map app].
    reflexivity.
Qed.

(** X5.  Whatever fails, a cycle publishes in order and without gaps: the
    topics it has passed to the publisher are a beginning of the list that a
    cycle without failure publishes for the overview it received; and it
    publishes nothing unless it received an overview. *)
Theorem published_topics_prefix (env : Env) (h : History) (s : Store) :
  let evs := events (fetchAndPublish env h s) in
  published_topics evs = [] \/
  exists home,
    homepage_calls evs = [Ok (Some home)] /\
    prefix_of (published_topics evs) (all_topics env home).
Proof.
  cbv zeta. rewrite fetchAndPublish_unfold.
  pose proof (obtainLogin_events env (h ++ [ELog MsgFetchingData]) s) as Ha.
  destruct (obtainLogin env (h ++ [ELog MsgFetchingData]) s)
    as [[[[c|]|x] e1] s1]; cbn in Ha;
    destruct (auth_reading e1 Ha) as [Hat Hah].
  - set (h1 := (h ++ [ELog MsgFetchingData]) ++ e1).
    pose proof (publishAll_homepage_calls env c h1 s1) as Hh.
    destruct (publishAll_topics_prefix env c h1 s1)
      as [Hnone|(home & Hw & Hs & Hp)].
    + left. destruct (publishAll env c h1 s1) as [[r e2] s2].
      unfold events, published_topics in *. cbn [fst snd flat_map app] in *.
      rewrite flat_map_app, Hat, Hnone. reflexivity.
    + right. exists home. rewrite Hw, Hs in Hh.
      destruct (publishAll env c h1 s1) as [[r e2] s2].
      unfold events, published_topics, homepage_calls in *.
      cbn [fst snd flat_map app] in *.
      rewrite !flat_map_app, Hat, Hah, Hh. split; [reflexivity|exact Hp].
  - left. unfold events, published_topics in *. cbn [fst snd flat_map app].
    rewrite flat_map_app, Hat. reflexivity.
  - left. unfold events. cbn [fst snd flat_map app]. exact Hat.
Qed.

Example topics_before_the_failure :
  published_topics (events (fetchAndPublish Scenario.schedule_A_fails [] None))
    = ["anker/site_homepage"; "anker/site/A/scenInfo"] /\
  all_topics Scenario.schedule_A_fails
    (mkResponse 0 "success!"
       (Some (mkHomepage (Some [Scenario.siteA; Scenario.siteB]) "{}")))
    = ["anker/site_homepage"; "anker/site/A/scenInfo"; "anker/site/A/schedule";
       "anker/site/B/scenInfo"; "anker/site/B/schedule"].
Proof. vm_compute. split; reflexivity. Qed.

(** ** The five further retrievals *)





Example retrievals_of_two_sites :
  device_param_calls (events (fetchAndPublish Scenario.two_sites [] None)) =
    [ ("id-A", "4"); ("id-A", "3"); ("id-A", "2"); ("id-A", "1");
      ("id-A", "6"); ("id-A", "6");
      ("id-B", "4"); ("id-B", "3"); ("id-B", "2"); ("id-B", "1");
      ("id-B", "6"); ("id-B", "6") ] /\
  published_topics (events (fetchAndPublish Scenario.two_sites [] None)) =
    [ "anker/site_homepage";
      "anker/site/A/scenInfo"; "anker/site/A/schedule";
      "anker/site/B/scenInfo"; "anker/site/B/schedule" ].
Proof. vm_compute. split; reflexivity. Qed.


(** ** Payloads are forwarded *)

Lemma forwarding_app_any env before e1 e2 :
  forwarding env before e1 -> (forall b, forwarding env b e2) ->
  forwarding env before (e1 ++ e2).
Proof.
  revert before. induction e1 as [|ev e1 IH]; intros before H1 H2; cbn.
  - apply H2.
  - destruct H1 as [Hev H1]. split; [exact Hev|]. apply IH; assumption.
Qed.

Lemma auth_forwarding env l :
  Forall auth_event l -> forall before, forwarding env before l.
Proof.
  intros H. induction H as [|ev l Hev _ IH]; intros before; cbn; [exact I|].
  split; [|apply IH].
  destruct ev; try exact I. destruct Hev.
Qed.

Lemma siteBody_forwarding env site h s before :
  forwarding env before (events (siteBody env site h s)).
Proof.
  unfold siteBody, bind, scenInfo, getSiteDeviceParam, publish, perform,
    get_data, get_param_data, ret, throw.
  run_cases; unfold events; cbn [fst snd forwarding justified];
    repeat split; eauto.
Qed.

Lemma forOf_siteBody_forwarding env sites : forall h s before,
  forwarding env before (events (forOf sites (siteBody env) h s)).
Proof.
  induction sites as [|site rest IH]; intros h s before.
  - exact I.
  - cbn [forOf]. unfold bind.
    pose proof (siteBody_forwarding env site h s before) as Hb.
    destruct (siteBody env site h s) as [[[[]|x] e1] s1]; [|exact Hb].
    pose proof (fun b => IH (h ++ e1) s1 b) as Hr.
    destruct (forOf rest (siteBody env) (h ++ e1) s1) as [[r e2] s2].
    unfold events in *. cbn [fst snd] in *.
    apply forwarding_app_any; assumption.
Qed.

Lemma publishAll_forwarding env c h s before :
  forwarding env before (events (publishAll env c h s)).
Proof.
  rewrite publishAll_cases. cbv zeta.
  destruct (api_withLogin env h c) as [u|e]; [|cbn; auto].
  destruct (api_siteHomepage env _) as [[home|]|e]; try (cbn; auto).
  destruct (mqtt_publish env _ _ _) as [v|e];
    [|cbn [events fst snd forwarding justified]; unfold events;
      cbn [fst snd forwarding justified]; repeat split].
  match goal with |- context [forOf ?l ?b ?h' ?s'] =>
    pose proof (fun p => forOf_siteBody_forwarding env l h' s' p) as Hf;
    destruct (forOf l b h' s') as [[[[]|x] ev] s1] end;
    unfold events in *; cbn [fst snd] in *; cbn [app forwarding justified];
    repeat (split; [solve [exact I | reflexivity | split; reflexivity]|]).
  - apply forwarding_app_any; [apply Hf | intros p; cbn; auto].
  - apply Hf.
Qed.

Lemma cycle_forwarding env h s :
  forwarding env [] (events (fetchAndPublish env h s)).
Proof.
  rewrite fetchAndPublish_unfold.
  pose proof (obtainLogin_events env (h ++ [ELog MsgFetchingData]) s) as Ha.
  destruct (obtainLogin env (h ++ [ELog MsgFetchingData]) s)
    as [[[[c|]|x] e1] s1]; cbn in Ha.
  - pose proof (fun p => publishAll_forwarding env c
                           ((h ++ [ELog MsgFetchingData]) ++ e1) s1 p) as Hp.
    destruct (publishAll env c _ s1) as [[r e2] s2].
    unfold events in *. cbn [fst snd] in *. cbn [forwarding].
    split; [exact I|].
    apply forwarding_app_any; [apply auth_forwarding|]; assumption.
  - unfold events. cbn [fst snd forwarding]. split; [exact I|].
    apply forwarding_app_any; [apply auth_forwarding; assumption|].
    intros p. cbn. auto.
  - unfold events. cbn [fst snd forwarding]. split; [exact I|].
    apply auth_forwarding; assumption.
Qed.

Lemma forwarding_at env before pre t p r post :
  forwarding env before (pre ++ EPublish t p r :: post) ->
  justified env (rev pre ++ before) t p.
Proof.
  revert before. induction pre as [|a pre IH]; intros before H.
  - destruct H as [H _]. exact H.
  - destruct H as [_ H]. apply IH in H. cbn [rev].
    rewrite <- app_assoc. exact H.
Qed.

Lemma rev_eq_cons {A} (l : list A) a m :
  rev l = a :: m -> l = rev m ++ [a].
Proof.
  intros H. rewrite <- (rev_involutive l), H. reflexivity.
Qed.

(** X6.  In every cycle, also one that fails later, whatever is passed to
    the publisher is the data of the answer received just before, and that
    answer is the overview's (published on [p/site_homepage]), the scenario
    info's, or that of the one call to [getSiteDeviceParam] made with
    [ParamType.LoadConfiguration] right after the scenario info of the same
    site was published.  The five further calls come after the publication
    of the schedule, so that none of them is followed by a publish. *)
Theorem payloads_are_forwarded
    (env : Env) (h : History) (s : Store)
    (pre post : list Event) (t : string) (p : Payload) (r : Outcome unit) :
  events (fetchAndPublish env h s) = pre ++ EPublish t p r :: post ->
  (exists pre' home,
     pre = pre' ++ [ESiteHomepage (Ok (Some home))] /\
     t = mqttTopic env +++ "/site_homepage" /\
     p = match data home with Some d => PHomepage d | None => PUndefined end)
  \/
  (exists pre' id scen,
     pre = pre' ++ [EScenInfo id (Ok (Some scen))] /\
     p = match data scen with Some d => PScenInfo d | None => PUndefined end)
  \/
  (exists pre' id scen t1 p1 params pd,
     pre = pre' ++ [ EScenInfo id (Ok (Some scen));
                     EPublish t1 p1 (Ok tt);
                     EGetSiteDeviceParam id (LoadConfiguration env)
                       (Ok (Some params)) ] /\
     data params = Some pd /\
     p = PSchedule (param_data pd)).
Proof.
  intros E. pose proof (cycle_forwarding env h s) as H. rewrite E in H.
  apply forwarding_at in H. rewrite app_nil_r in H.
  destruct (rev pre) as [|a m] eqn:Er; [destruct H|].
  apply rev_eq_cons in Er. subst pre.
  destruct a as [| | | | | | | | | | a | id a | id pt a | | |];
    try solve [destruct H].
  - destruct a as [[home|]|x]; try solve [destruct H].
    destruct H as [-> ->]. left. exists (rev m), home. repeat split.
  - destruct a as [[scen|]|x]; try solve [destruct H].
    right. left. exists (rev m), id, scen. split; [reflexivity|exact H].
  - destruct a as [[params|]|x]; try solve [destruct H].
    destruct m as [|b m]; [destruct H|].
    destruct b as [| | | | | | | | | | | | | t1 p1 o | |];
      try solve [destruct H].
    destruct o as [[]|]; [|destruct H].
    destruct m as [|c m]; [destruct H|].
    destruct c as [| | | | | | | | | | | id' o' | | | |];
      try solve [destruct H].
    destruct o' as [[scen|]|]; try solve [destruct H].
    destruct H as (-> & -> & pd & Hd & ->).
    right. right. exists (rev m), id, scen, t1, p1, params, pd.
    split; [|split; [exact Hd|reflexivity]].
    cbn [rev]. rewrite <- !app_assoc. reflexivity.
Qed.

Lemma payloads_are_forwarded_witness :
  let evs := events (fetchAndPublish Scenario.healthy [] None) in
  evs = firstn 10 evs
        ++ EPublish "anker/site/Home/schedule" (PSchedule "{ranges}") (Ok tt)
        :: skipn 11 evs /\
  exists pre' pd,
    firstn 10 evs =
      pre' ++ [ EScenInfo "site-1"
                  (Ok (Some (mkResponse 0 "success!" (Some "{scene}"))));
                EPublish "anker/site/Home/scenInfo" (PScenInfo "{scene}") (Ok tt);
                EGetSiteDeviceParam "site-1" "4"
                  (Ok (Some (mkResponse 0 "success!" (Some pd)))) ] /\
    PSchedule "{ranges}" = PSchedule (param_data pd).
Proof.
  cbv zeta.
  assert (E : events (fetchAndPublish Scenario.healthy [] None) =
              firstn 10 (events (fetchAndPublish Scenario.healthy [] None))
              ++ EPublish "anker/site/Home/schedule" (PSchedule "{ranges}") (Ok tt)
              :: skipn 11 (events (fetchAndPublish Scenario.healthy [] None)))
    by (vm_compute; reflexivity).
  split; [exact E|].
  destruct (payloads_are_forwarded Scenario.healthy [] None _ _ _ _ _ E)
    as [(pre' & home & Hp & _)|[(pre' & id & scen & Hp & _)
       |(pre' & id & scen & t1 & p1 & params & pd & Hp & Hd & Hs)]].
  - exfalso. vm_compute in Hp.
    apply (f_equal (@rev Event)) in Hp. rewrite rev_app_distr in Hp.
    cbn in Hp. discriminate.
  - exfalso. vm_compute in Hp.
    apply (f_equal (@rev Event)) in Hp. rewrite rev_app_distr in Hp.
    cbn in Hp. discriminate.
  - pose proof Hp as Hp0. vm_compute in Hp.
    pose proof (f_equal (@rev Event) Hp) as Hr.
    rewrite rev_app_distr in Hr. cbn in Hr.
    injection Hr; intros; subst.
    cbn in Hd. injection Hd as <-.
    eexists pre', _. split; [exact Hp0|exact Hs].
Defined.

(** * Further properties of [ref/e1600.ts] *)

(** ** [_init] *)

Lemma E1600_init_cases env h st :
  E1600._init env h st =
  let establish (c : LoginResultResponse) (pre : list Event) :=
    if E1600.apiSession st then (Ok tt, pre, E1600.mkState (Some c) true)
    else
      match api_withLogin env (h ++ pre) c with
      | Ok _ =>
          (Ok tt, pre ++ [EWithLogin c (Ok tt)], E1600.mkState (Some c) true)
      | Throw e =>
          (Throw E1600.Error_login_failed,
           pre ++ [EWithLogin c (Throw e); EConsoleError e],
           E1600.mkState None false)
      end in
  match E1600.loginCredentials st with
  | Some c => establish c []
  | None =>
      match api_login env h with
      | Throw e => (Throw e, [ELogin (Throw e)], st)
      | Ok resp =>
          let pre := [ELogin (Ok resp); EConsoleLog resp] in
          if code resp =? 100053 then (Throw (msg resp), pre, st)
          else
            match data resp with
            | None =>
                (Throw E1600.Error_unable_auth, pre,
                 E1600.mkState None (E1600.apiSession st))
            | Some c => establish c pre
            end
      end
  end.
Proof.
  destruct st as [creds sess].
  unfold E1600._init, E1600.ensureCredentials, E1600.ensureSession,
    bind, try_catch, get, put, ret, throw, emit, login, withLogin, perform.
  cbn. rewrite ?app_nil_r.
  destruct creds as [c|].
  - cbn. rewrite ?app_nil_r. destruct sess; [reflexivity|]. cbn.
    rewrite ?app_nil_r.
    destruct (api_withLogin env h c) as [[]|e]; reflexivity.
  - destruct (api_login env h) as [resp|e]; [|reflexivity]. cbn.
    destruct (code resp =? 100053); [reflexivity|]. cbn.
    destruct (data resp) as [c|]; [|reflexivity]. cbn.
    destruct sess; [reflexivity|]. cbn. rewrite ?app_nil_r.
    rewrite <- ?app_assoc. cbn [app].
    destruct (api_withLogin env _ c) as [[]|e]; reflexivity.
Qed.

Lemma E1600_init_Ok_state env h st e0 st0 :
  E1600._init env h st = (Ok tt, e0, st0) ->
  exists c, st0 = E1600.mkState (Some c) true.
Proof.
  rewrite E1600_init_cases. cbv zeta. intros E.
  destruct (E1600.loginCredentials st) as [c|].
  - destruct (E1600.apiSession st).
    + injection E as _ <-. eauto.
    + destruct (api_withLogin env _ c); [|discriminate].
      injection E as _ <-. eauto.
  - destruct (api_login env h) as [resp|e]; [|discriminate].
    destruct (code resp =? 100053); [discriminate|].
    destruct (data resp) as [c|]; [|discriminate].
    destruct (E1600.apiSession st).
    + injection E as _ <-. eauto.
    + destruct (api_withLogin env _ c); [|discriminate].
      injection E as _ <-. eauto.
Qed.

Lemma E1600_init_established env h c :
  E1600._init env h (E1600.mkState (Some c) true)
  = (Ok tt, [], E1600.mkState (Some c) true).
Proof. rewrite E1600_init_cases. reflexivity. Qed.

(** X7.  After [_init] has returned, the instance holds a credential and a
    session, and any further [_init] does nothing: it calls neither
    [api.login()] nor [api.withLogin], and leaves the instance as it is. *)
Theorem E1600_init_idempotent
    (env : Env) (h : History) (st st0 : E1600.State) (e0 : list Event) :
  E1600._init env h st = (Ok tt, e0, st0) ->
  (exists c, st0 = E1600.mkState (Some c) true) /\
  forall h', E1600._init env h' st0 = (Ok tt, [], st0).
Proof.
  intros E. destruct (E1600_init_Ok_state env h st e0 st0 E) as [c ->].
  split; [eauto|]. intros h'. apply E1600_init_established.
Qed.

Lemma E1600_init_idempotent_witness :
  E1600._init Scenario.healthy [] Scenario.fresh =
    (Ok tt, events (E1600._init Scenario.healthy [] Scenario.fresh),
     E1600.mkState (Some Scenario.credential) true) /\
  (exists c, E1600.mkState (Some Scenario.credential) true
             = E1600.mkState (Some c) true) /\
  forall h',
    E1600._init Scenario.healthy h' (E1600.mkState (Some Scenario.credential) true)
    = (Ok tt, [], E1600.mkState (Some Scenario.credential) true).
Proof.
  split; [reflexivity|].
  apply (E1600_init_idempotent Scenario.healthy [] Scenario.fresh
           (E1600.mkState (Some Scenario.credential) true)
           (events (E1600._init Scenario.healthy [] Scenario.fresh))).
  reflexivity.
Defined.

(** X8.  When the instance holds no credential and the login answers with
    code 100053, [_init] throws the message of the response; when it answers
    with another code and no credential, [_init] throws "Unable to retrieve
    auth_token during API login".  In both cases no session is asked for
    and the instance still holds no credential. *)
Theorem E1600_init_login_refused
    (env : Env) (h : History) (sess : bool)
    (resp : ResultResponse LoginResultResponse) :
  api_login env h = Ok resp ->
  code resp = 100053 \/ data resp = None ->
  let r := E1600._init env h (E1600.mkState None sess) in
  outcome r = Throw (if code resp =? 100053 then msg resp
                     else E1600.Error_unable_auth) /\
  events r = [ELogin (Ok resp); EConsoleLog resp] /\
  sessions (events r) = [] /\
  E1600.loginCredentials (final r) = None.
Proof.
  intros Hl Hc. cbv zeta. rewrite E1600_init_cases. cbn. rewrite Hl.
  destruct (code resp =? 100053) eqn:Ec; [repeat split|].
  destruct Hc as [Hc|Hc]; [apply Z.eqb_neq in Ec; contradiction|].
  rewrite Hc. repeat split.
Qed.

Lemma E1600_init_login_refused_witness :
  let resp := mkResponse 26006 "wrong password" None in
  let r := E1600._init Scenario.login_refused [] Scenario.fresh in
  api_login Scenario.login_refused [] = Ok resp /\
  (code resp = 100053 \/ data resp = None) /\
  outcome r = Throw (if code resp =? 100053 then msg resp
                     else E1600.Error_unable_auth) /\
  events r = [ELogin (Ok resp); EConsoleLog resp] /\
  sessions (events r) = [] /\
  E1600.loginCredentials (final r) = None.
Proof.
  cbv zeta. split; [reflexivity|]. split; [right; reflexivity|].
  apply (E1600_init_login_refused Scenario.login_refused [] false
           (mkResponse 26006 "wrong password" None));
    [reflexivity | right; reflexivity].
Defined.

(** X9.  Whenever [api.withLogin] throws inside [_init], with a credential
    the instance held or with one just obtained, [_init] throws "Login
    failed" and the instance holds no credential any more, so that its next
    [_init] starts by calling [api.login()]. *)
Theorem E1600_init_failed_session_forgets
    (env : Env) (h : History) (st : E1600.State)
    (c : LoginResultResponse) (e : Exn) :
  let r := E1600._init env h st in
  In (EWithLogin c (Throw e)) (events r) ->
  outcome r = Throw E1600.Error_login_failed /\
  E1600.loginCredentials (final r) = None /\
  forall h', exists rest,
    events (E1600._init env h' (final r)) = ELogin (api_login env h') :: rest.
Proof.
  cbv zeta. intros Hin.
  assert (Hnext : forall h' sess, exists rest,
             events (E1600._init env h' (E1600.mkState None sess))
             = ELogin (api_login env h') :: rest).
  { intros h' sess. rewrite E1600_init_cases. cbv zeta. cbn.
    destruct (api_login env h') as [resp|x]; [|eexists; reflexivity].
    destruct (code resp =? 100053); [eexists; reflexivity|].
    destruct (data resp) as [d|]; [|eexists; reflexivity].
    destruct sess; [eexists; reflexivity|].
    destruct (api_withLogin env _ d); eexists; reflexivity. }
  revert Hin. rewrite E1600_init_cases. cbv zeta.
  destruct (E1600.loginCredentials st) as [c0|].
  - destruct (E1600.apiSession st); [intros []|].
    destruct (api_withLogin env _ c0) as [[]|x]; cbn; intros Hin; in_cases Hin.
    split; [reflexivity|]. split; [reflexivity|]. intros h'. apply Hnext.
  - destruct (api_login env h) as [resp|x]; [|cbn; intros Hin; in_cases Hin].
    destruct (code resp =? 100053); [cbn; intros Hin; in_cases Hin|].
    destruct (data resp) as [d|]; [|cbn; intros Hin; in_cases Hin].
    destruct (E1600.apiSession st); [cbn; intros Hin; in_cases Hin|].
    destruct (api_withLogin env _ d) as [[]|x]; cbn; intros Hin; in_cases Hin.
    split; [reflexivity|]. split; [reflexivity|]. intros h'. apply Hnext.
Qed.

Lemma E1600_init_failed_session_forgets_witness :
  let r := E1600._init Scenario.bad_session []
             (E1600.mkState (Some Scenario.credential) false) in
  In (EWithLogin Scenario.credential (Throw "bad token")) (events r) /\
  outcome r = Throw E1600.Error_login_failed /\
  E1600.loginCredentials (final r) = None /\
  forall h', exists rest,
    events (E1600._init Scenario.bad_session h' (final r))
    = ELogin (api_login Scenario.bad_session h') :: rest.
Proof.
  cbv zeta.
  assert (Hin : In (EWithLogin Scenario.credential (Throw "bad token"))
                  (events (E1600._init Scenario.bad_session []
                             (E1600.mkState (Some Scenario.credential) false)))).
  { vm_compute. left. reflexivity. }
  split; [exact Hin|].
  apply (E1600_init_failed_session_forgets Scenario.bad_session []
           (E1600.mkState (Some Scenario.credential) false)
           Scenario.credential "bad token" Hin).
Defined.

(** ** [getSitehomepage] *)

(** X10.  Once [_init] has returned, [getSitehomepage] asks for the
    overview once; if the answer is [undefined] it sets one timer of
    1000 ms and asks once more, and it throws "Unable to retrieve
    Sitehomepage" when the second answer is [undefined] too. *)
Theorem E1600_overview_retried_once
    (env : Env) (h : History) (st st0 : E1600.State) (e0 : list Event) :
  E1600._init env h st = (Ok tt, e0, st0) ->
  let r := E1600.getSitehomepage env h st in
  let first := api_siteHomepage env (h ++ e0) in
  let second :=
    api_siteHomepage env ((h ++ e0) ++ [ESiteHomepage (Ok None); ETimeout 1000]) in
  (first <> Ok None ->
     homepage_calls (events r) = [first] /\ timeouts (events r) = []) /\
  (first = Ok None ->
     homepage_calls (events r) = [first; second] /\
     timeouts (events r) = [1000] /\
     outcome r = match second with
                 | Ok (Some resp) => Ok (data resp)
                 | Ok None => Throw E1600.Error_unable_sitehomepage
                 | Throw x => Throw x
                 end).
Proof. exact (E1600_getSitehomepage_retries_once env h st e0 st0). Qed.

Lemma E1600_overview_retried_once_witness :
  let env := Scenario.flaky_homepage in
  let e0 := events (E1600._init env [] Scenario.fresh) in
  let r := E1600.getSitehomepage env [] Scenario.fresh in
  E1600._init env [] Scenario.fresh
    = (Ok tt, e0, E1600.mkState (Some Scenario.credential) true) /\
  api_siteHomepage env ([] ++ e0) = Ok None /\
  homepage_calls (events r)
    = [Ok None;
       api_siteHomepage env (([] ++ e0) ++ [ESiteHomepage (Ok None); ETimeout 1000])] /\
  timeouts (events r) = [1000] /\
  outcome r = Ok (Some (mkHomepage (Some [Scenario.siteHome]) "{}")).
Proof.
  cbv zeta. split; [reflexivity|]. split; [reflexivity|].
  apply (proj2 (E1600_overview_retried_once Scenario.flaky_homepage []
                  Scenario.fresh
                  (E1600.mkState (Some Scenario.credential) true)
                  (events (E1600._init Scenario.flaky_homepage [] Scenario.fresh))
                  eq_refl)).
  reflexivity.
Defined.

(** ** [_getSiteId] *)

Lemma get_None s : forall i,
  String.get i s = None <-> (String.length s <= i)%nat.
Proof.
  induction s as [|ch s IH]; intros i; cbn.
  - split; [lia | reflexivity].
  - destruct i as [|i]; [split; [discriminate | lia]|].
    rewrite IH. lia.
Qed.

(** The loop of lines 98-103 never finds anything: it runs to its end when
    the string has at least as many characters as there are sites, and
    throws otherwise. *)
Lemma findSite_never_finds count : forall i s,
  (i <= String.length s)%nat ->
  E1600.findSite count i s =
    if (i + count <=? String.length s)%nat then Ok None
    else Throw E1600.TypeError_site_id.
Proof.
  induction count as [|count IH]; intros i s Hi; cbn [E1600.findSite].
  - replace (i + 0 <=? String.length s)%nat with true; [reflexivity|].
    symmetry. apply Nat.leb_le. lia.
  - destruct (String.get i s) as [ch|] eqn:Eg.
    + assert (Hlt : (i < String.length s)%nat).
      { destruct (Nat.lt_ge_cases i (String.length s)) as [H|H]; [exact H|].
        apply get_None in H. congruence. }
      unfold E1600.char_site_id. rewrite IH by lia.
      replace (S i + count)%nat with (i + S count)%nat by lia. reflexivity.
    + apply get_None in Eg.
      replace (i + S count <=? String.length s)%nat with false; [reflexivity|].
      symmetry. apply Nat.leb_gt. lia.
Qed.

Lemma first_site_in_range (l : list Site) first rest :
  l = first :: rest -> (Z.of_nat (List.length l) <? 0 + 1) = false.
Proof. intros ->. apply Z.ltb_ge. cbn [List.length]. lia. Qed.

Lemma resolve_first js (l : list Site) h st :
  (if E1600.beyondLast js l (E1600.ArgIndex 0)
   then throw (E1600.Error_out_of_range (List.length l))
   else E1600.siteIdAt js l (E1600.ArgIndex 0)) h st =
  (match l with
   | [] => Throw (E1600.Error_out_of_range 0)
   | first :: _ => Ok (site_id first)
   end, [], st).
Proof.
  unfold E1600.beyondLast.
  destruct l as [|first rest]; [reflexivity|].
  rewrite (first_site_in_range _ first rest eq_refl). reflexivity.
Qed.

(** X11.  Without an argument ([undefined], [null]) or with [NaN],
    lines 97-116 select the first site of the list; on an empty list they
    throw "site out of range. Expected < -1 or valid site_id". *)
Theorem resolveSite_default_is_first
    (js : E1600.JsText) (l : list Site) (site : E1600.SiteArg)
    (h : History) (st : E1600.State) :
  In site [E1600.ArgUndefined; E1600.ArgNull; E1600.ArgNaN] ->
  E1600.resolveSite js (Some l) site h st =
    (match l with
     | [] => Throw "site out of range. Expected < -1 or valid site_id"
     | first :: _ => Ok (site_id first)
     end, [], st).
Proof.
  intros Hin.
  destruct Hin as [<-|[<-|[<-|[]]]];
    unfold E1600.resolveSite, E1600.lookupSite, bind, ret;
    cbv beta iota zeta; cbn [E1600.defaultIndex];
    rewrite resolve_first; destruct l; reflexivity.
Qed.

Lemma resolveSite_default_is_first_witness :
  In E1600.ArgUndefined [E1600.ArgUndefined; E1600.ArgNull; E1600.ArgNaN] /\
  E1600.resolveSite Scenario.js (Some [Scenario.siteA; Scenario.siteB])
    E1600.ArgUndefined [] Scenario.fresh
  = (Ok "id-A", [], Scenario.fresh) /\
  E1600.resolveSite Scenario.js (Some []) E1600.ArgUndefined [] Scenario.fresh
  = (Throw "site out of range. Expected < -1 or valid site_id", [],
     Scenario.fresh).
Proof.
  split; [left; reflexivity|]. split.
  - apply (resolveSite_default_is_first Scenario.js
             [Scenario.siteA; Scenario.siteB] E1600.ArgUndefined).
    left. reflexivity.
  - apply (resolveSite_default_is_first Scenario.js [] E1600.ArgUndefined).
    left. reflexivity.
Defined.

(** X12.  With an integer [n], lines 97-116 return the id of the site at
    index [n] when there is one, throw the range error when [n] is at or
    past the length of the list, and, for a negative [n], pass the range
    check and throw the [TypeError] of reading [site_id] off [undefined]. *)
Theorem resolveSite_by_index
    (js : E1600.JsText) (l : list Site) (n : Z)
    (h : History) (st : E1600.State) :
  E1600.resolveSite js (Some l) (E1600.ArgIndex n) h st =
    (if n <? 0 then Throw E1600.TypeError_site_id
     else match nth_error l (Z.to_nat n) with
          | Some site => Ok (site_id site)
          | None => Throw (E1600.Error_out_of_range (List.length l))
          end, [], st).
Proof.
  unfold E1600.resolveSite, E1600.lookupSite, bind, ret, throw,
    E1600.defaultIndex, E1600.beyondLast, E1600.siteIdAt. cbn.
  destruct (Z.ltb_spec n 0) as [Hneg|Hpos].
  - replace (Z.of_nat (List.length l) <? n + 1) with false
      by (symmetry; apply Z.ltb_ge; lia).
    replace (0 <=? n) with false by (symmetry; apply Z.leb_gt; lia).
    reflexivity.
  - destruct (Z.ltb_spec (Z.of_nat (List.length l)) (n + 1)) as [Hout|Hin].
    + assert (Hn : nth_error l (Z.to_nat n) = None)
        by (apply nth_error_None; lia).
      rewrite Hn. reflexivity.
    + replace (0 <=? n) with true by (symmetry; apply Z.leb_le; lia).
      destruct (nth_error l (Z.to_nat n)) as [site|] eqn:En; [reflexivity|].
      apply nth_error_None in En. lia.
Qed.

Example resolveSite_indices :
  let l := Some [Scenario.siteA; Scenario.siteB] in
  outcome (E1600.resolveSite Scenario.js l (E1600.ArgIndex 1) [] Scenario.fresh)
    = Ok "id-B" /\
  outcome (E1600.resolveSite Scenario.js l (E1600.ArgIndex 2) [] Scenario.fresh)
    = Throw "site out of range. Expected < 1 or valid site_id" /\
  outcome (E1600.resolveSite Scenario.js l (E1600.ArgIndex (-1)) [] Scenario.fresh)
    = Throw E1600.TypeError_site_id.
Proof. vm_compute. repeat split. Qed.

(** X13.  A string that is not a number is never matched against the ids
    of the sites: the loop compares the string with a property of its own
    characters.  When there are more sites than characters, lines 97-116
    throw a [TypeError]; otherwise they select the first site, whichever
    site the string names. *)
Theorem resolveSite_ignores_site_id
    (js : E1600.JsText) (l : list Site) (s : string)
    (h : History) (st : E1600.State) :
  E1600.isNaN_text js s = true ->
  E1600.resolveSite js (Some l) (E1600.ArgText s) h st =
    (if (List.length l <=? String.length s)%nat
     then match l with
          | [] => Throw (E1600.Error_out_of_range 0)
          | first :: _ => Ok (site_id first)
          end
     else Throw E1600.TypeError_site_id, [], st).
Proof.
  intros Hnan.
  unfold E1600.resolveSite, E1600.lookupSite, bind.
  rewrite (findSite_never_finds (List.length l) 0 s) by lia. cbn [Nat.add].
  destruct (List.length l <=? String.length s)%nat; [|reflexivity].
  unfold ret. cbv beta iota zeta. cbn [E1600.defaultIndex]. rewrite Hnan.
  rewrite resolve_first. reflexivity.
Qed.

Lemma resolveSite_ignores_site_id_witness :
  E1600.isNaN_text Scenario.js "id-B" = true /\
  E1600.resolveSite Scenario.js (Some [Scenario.siteA; Scenario.siteB])
    (E1600.ArgText "id-B") [] Scenario.fresh
  = (Ok "id-A", [], Scenario.fresh).
Proof.
  split; [reflexivity|].
  apply (resolveSite_ignores_site_id Scenario.js
           [Scenario.siteA; Scenario.siteB] "id-B" [] Scenario.fresh).
  reflexivity.
Defined.

(** ** [getSchedule] *)

Lemma resolveSite_pure js sites site h st :
  events (E1600.resolveSite js sites site h st) = [] /\
  final (E1600.resolveSite js sites site h st) = st.
Proof.
  unfold E1600.resolveSite, E1600.lookupSite, E1600.siteIdAt, bind, ret, throw.
  run_cases; split; reflexivity.
Qed.

Lemma E1600_init_reading env h st :
  (List.length (logins (events (E1600._init env h st))) <= 1)%nat /\
  (List.length (sessions (events (E1600._init env h st))) <= 1)%nat /\
  device_param_calls (events (E1600._init env h st)) = [].
Proof.
  rewrite E1600_init_cases. cbv zeta.
  destruct (E1600.loginCredentials st) as [c|].
  - destruct (E1600.apiSession st); [cbn; auto|].
    destruct (api_withLogin env _ c); cbn; auto.
  - destruct (api_login env h) as [resp|e]; [|cbn; auto].
    destruct (code resp =? 100053); [cbn; auto|].
    destruct (data resp) as [c|]; [|cbn; auto].
    destruct (E1600.apiSession st); [cbn; auto|].
    destruct (api_withLogin env _ c); cbn; auto.
Qed.

Lemma getSitehomepage_established env h c :
  let r := E1600.getSitehomepage env h (E1600.mkState (Some c) true) in
  logins (events r) = [] /\ sessions (events r) = [] /\
  device_param_calls (events r) = [].
Proof.
  cbv zeta. rewrite E1600_getSitehomepage_cases, E1600_init_established.
  destruct (api_siteHomepage env _) as [[r|]|x]; [cbn; auto| |cbn; auto].
  cbv zeta. destruct (api_siteHomepage env _) as [[r|]|x]; cbn; auto.
Qed.

Lemma getSiteId_unfold env js site h st :
  E1600._getSiteId env js site h st =
  match E1600._init env h st with
  | (Ok _, e0, st0) =>
      match E1600.getSitehomepage env (h ++ e0) st0 with
      | (Ok hp, e1, st1) =>
          match
            (match hp with
             | Some x => ret (site_list x)
             | None => throw E1600.TypeError_site_list
             end) ((h ++ e0) ++ e1) st1
          with
          | (Ok sites, e2, st2) =>
              match E1600.resolveSite js sites site
                      ((h ++ e0) ++ e1 ++ e2) st2 with
              | (r, e3, st3) => (r, e0 ++ (e1 ++ e2) ++ e3, st3)
              end
          | (Throw x, e2, st2) => (Throw x, e0 ++ e1 ++ e2, st2)
          end
      | (Throw x, e1, st1) => (Throw x, e0 ++ e1, st1)
      end
  | (Throw x, e0, st0) => (Throw x, e0, st0)
  end.
Proof.
  unfold E1600._getSiteId, E1600.getSites.
  generalize (E1600._init env) as init, (E1600.getSitehomepage env) as gsh,
    (E1600.resolveSite js) as rs.
  intros init gsh rs. unfold bind.
  destruct (init h st) as [[[[]|x] e0] st0]; [|reflexivity].
  destruct (gsh (h ++ e0) st0) as [[[hp|x] e1] st1]; [|reflexivity].
  destruct hp as [hp|]; unfold ret, throw; [|reflexivity].
  destruct (rs (site_list hp) site _ st1) as [[r e3] st3]. reflexivity.
Qed.

Lemma getSiteId_reading env js site h st :
  let r := E1600._getSiteId env js site h st in
  (List.length (logins (events r)) <= 1)%nat /\
  (List.length (sessions (events r)) <= 1)%nat /\
  device_param_calls (events r) = [].
Proof.
  cbv zeta. rewrite getSiteId_unfold.
  pose proof (E1600_init_reading env h st) as (Hl & Hs & Hd).
  destruct (E1600._init env h st) as [[[[]|x] e0] st0] eqn:Ei;
    [|repeat split; assumption].
  destruct (E1600_init_Ok_state env h st e0 st0 Ei) as [c ->].
  pose proof (getSitehomepage_established env (h ++ e0) c) as (Gl & Gs & Gd).
  destruct (E1600.getSitehomepage env (h ++ e0) (E1600.mkState (Some c) true))
    as [[[hp|x] e1] st1]; unfold events in *; cbn [fst snd] in *.
  - destruct hp as [hp|]; unfold ret, throw.
    + match goal with |- context [E1600.resolveSite js ?l site ?h' ?s'] =>
        destruct (resolveSite_pure js l site h' s') as [Re _];
        destruct (E1600.resolveSite js l site h' s') as [[r e2] s2] end.
      unfold events in Re. cbn [fst snd] in Re. subst e2. cbn [fst snd].
      unfold logins, sessions, device_param_calls in *.
      rewrite !flat_map_app, Gl, Gs, Gd, Hd. cbn [flat_map app].
      rewrite !app_nil_r. auto.
    + cbn [fst snd]. unfold logins, sessions, device_param_calls in *.
      rewrite !flat_map_app, Gl, Gs, Gd, Hd. cbn [flat_map app].
      rewrite !app_nil_r. auto.
  - unfold logins, sessions, device_param_calls in *.
    rewrite !flat_map_app, Gl, Gs, Gd, Hd, !app_nil_r. auto.
Qed.

(** X14.  [getSchedule] runs [_init] twice (through [_getSiteId] and
    through [getSites]) and still logs in at most once and asks for at most
    one session.  It asks for the device parameters only once the site id
    is resolved, exactly once, for that id and with parameter type "4"; when
    the id cannot be resolved it asks for nothing and throws what
    [_getSiteId] threw. *)
Theorem getSchedule_calls
    (env : Env) (js : E1600.JsText) (site : E1600.SiteArg)
    (h : History) (st : E1600.State) :
  let r := E1600.getSchedule env js site h st in
  (List.length (logins (events r)) <= 1)%nat /\
  (List.length (sessions (events r)) <= 1)%nat /\
  match outcome (E1600._getSiteId env js site h st) with
  | Ok siteId => device_param_calls (events r) = [(siteId, "4")]
  | Throw e => device_param_calls (events r) = [] /\ outcome r = Throw e
  end.
Proof.
  cbv zeta.
  pose proof (getSiteId_reading env js site h st) as (Hl & Hs & Hd).
  unfold E1600.getSchedule.
  generalize dependent (E1600._getSiteId env js site). intros gsi Hl Hs Hd.
  unfold bind, getSiteDeviceParam, perform, get_data, get_param_data, ret, throw.
  destruct (gsi h st) as [[[siteId|x] e1] st1];
    unfold events, outcome in *; cbn [fst snd] in *;
    [|repeat split; assumption].
  run_cases; cbn [fst snd];
    unfold logins, sessions, device_param_calls in *;
    rewrite ?flat_map_app, ?Hd; cbn [flat_map app]; rewrite ?app_nil_r;
    auto.
Qed.

Example getSchedule_default_site :
  let r := E1600.getSchedule Scenario.two_sites Scenario.js
             E1600.ArgUndefined [] Scenario.fresh in
  outcome r = Ok "{ranges}" /\
  device_param_calls (events r) = [("id-A", "4")] /\
  logins (events r) = [Ok (mkResponse 0 "success!" (Some Scenario.credential))] /\
  sessions (events r) = [(Scenario.credential, Ok tt)].
Proof. vm_compute. repeat split. Qed.

(** ** Saving and restoring a session *)

(** X15.  The configuration read with [getSessionConfiguration] after
    [_init] has returned carries the credential in use; a new instance
    constructed from it does not log in: its [_init] only asks for a
    session, with that credential. *)
Theorem E1600_session_restored_without_login
    (env : Env) (config cfg : E1600.Options)
    (st st1 : E1600.State) (h : History) (e0 : list Event) :
  E1600.constructor None config = (cfg, Ok st) ->
  E1600._init env h st = (Ok tt, e0, st1) ->
  let saved := E1600.getSessionConfiguration cfg st1 in
  exists c st2,
    E1600.savedCredentials saved = Some c /\
    E1600.constructor None saved = (saved, Ok st2) /\
    forall h',
      events (E1600._init env h' st2) =
        match api_withLogin env h' c with
        | Ok _ => [EWithLogin c (Ok tt)]
        | Throw e => [EWithLogin c (Throw e); EConsoleError e]
        end.
Proof.
  intros Ec Ei. cbv zeta.
  destruct (E1600_init_Ok_state env h st e0 st1 Ei) as [c ->].
  unfold E1600.constructor in Ec. cbn in Ec.
  destruct (E1600.falsy (E1600.username config)) eqn:Hu; [discriminate|].
  destruct (E1600.falsy (E1600.password config)) eqn:Hp; [discriminate|].
  injection Ec as <- <-.
  exists c, (E1600.mkState (Some c) false).
  split; [reflexivity|]. split.
  - unfold E1600.constructor, E1600.getSessionConfiguration. cbn.
    rewrite Hu, Hp. reflexivity.
  - intros h'. rewrite E1600_init_cases. cbn. rewrite app_nil_r.
    destruct (api_withLogin env h' c) as [[]|e]; reflexivity.
Qed.

Lemma E1600_session_restored_without_login_witness :
  let env := Scenario.healthy in
  let cfg := E1600.mkOptions (Some "user@example.org") (Some "secret")
               (Some "DE") None in
  let saved := E1600.mkOptions (Some "user@example.org") (Some "secret")
                 (Some "DE") (Some Scenario.credential) in
  E1600.constructor None Scenario.options = (cfg, Ok Scenario.fresh) /\
  E1600._init env [] Scenario.fresh
    = (Ok tt, events (E1600._init env [] Scenario.fresh),
       E1600.mkState (Some Scenario.credential) true) /\
  exists c st2,
    E1600.savedCredentials saved = Some c /\
    E1600.constructor None saved = (saved, Ok st2) /\
    forall h',
      events (E1600._init env h' st2) =
        match api_withLogin env h' c with
        | Ok _ => [EWithLogin c (Ok tt)]
        | Throw e => [EWithLogin c (Throw e); EConsoleError e]
        end.
Proof.
  cbv zeta. split; [reflexivity|]. split; [reflexivity|].
  apply (E1600_session_restored_without_login Scenario.healthy
           Scenario.options
           (E1600.mkOptions (Some "user@example.org") (Some "secret")
              (Some "DE") None)
           Scenario.fresh
           (E1600.mkState (Some Scenario.credential) true) []
           (events (E1600._init Scenario.healthy [] Scenario.fresh)));
    reflexivity.
Defined.

(** ** [_getSiteId] on what the overview brings *)

Lemma resolveSite_outcome_indep js sites site h st h' st' :
  outcome (E1600.resolveSite js sites site h st)
  = outcome (E1600.resolveSite js sites site h' st').
Proof.
  unfold E1600.resolveSite, E1600.lookupSite, E1600.siteIdAt, bind, ret, throw.
  run_cases; reflexivity.
Qed.

Lemma resolveSite_no_list js site h st :
  outcome (E1600.resolveSite js None site h st) = Throw E1600.TypeError_length.
Proof. destruct site; reflexivity. Qed.

(** X16.  Once [_init] has returned and the overview call has answered,
    [_getSiteId] resolves the site on the [site_list] of the answer's
    [data].  An answer without [data] makes it throw the [TypeError] of
    reading [site_list] off [undefined], and [data] without [site_list] the
    [TypeError] of reading [length] off [undefined]: unlike
    [fetchAndPublish], it does not take a missing list for an empty one. *)
Theorem getSiteId_needs_site_list
    (env : Env) (js : E1600.JsText) (site : E1600.SiteArg)
    (h : History) (st st0 : E1600.State) (e0 : list Event)
    (resp : ResultResponse SiteHomepageResponse) :
  E1600._init env h st = (Ok tt, e0, st0) ->
  api_siteHomepage env (h ++ e0) = Ok (Some resp) ->
  outcome (E1600._getSiteId env js site h st) =
    match data resp with
    | None => Throw E1600.TypeError_site_list
    | Some hp =>
        match site_list hp with
        | None => Throw E1600.TypeError_length
        | Some l => outcome (E1600.resolveSite js (Some l) site h st)
        end
    end.
Proof.
  intros Ei Eh. rewrite getSiteId_unfold, Ei.
  destruct (E1600_init_Ok_state env h st e0 st0 Ei) as [c ->].
  rewrite E1600_getSitehomepage_cases, E1600_init_established.
  rewrite app_nil_r, Eh.
  destruct (data resp) as [hp|]; unfold ret, throw; [|reflexivity].
  match goal with |- context [E1600.resolveSite js ?l site ?h' ?s'] =>
    pose proof (resolveSite_outcome_indep js l site h' s' h st) as Hi;
    destruct (E1600.resolveSite js l site h' s') as [[r e3] st3] end.
  unfold outcome in *. cbn [fst snd] in *. rewrite Hi.
  destruct (site_list hp) as [l|]; [reflexivity|].
  apply resolveSite_no_list.
Qed.

Lemma getSiteId_needs_site_list_witness :
  let env := Scenario.no_data in
  let resp := mkResponse 401 "unauthorized" None in
  E1600._init env [] Scenario.fresh
    = (Ok tt, events (E1600._init env [] Scenario.fresh),
       E1600.mkState (Some Scenario.credential) true) /\
  api_siteHomepage env ([] ++ events (E1600._init env [] Scenario.fresh))
    = Ok (Some resp) /\
  outcome (E1600._getSiteId env Scenario.js E1600.ArgUndefined [] Scenario.fresh)
    = Throw E1600.TypeError_site_list.
Proof.
  cbv zeta. split; [reflexivity|]. split; [reflexivity|].
  apply (getSiteId_needs_site_list Scenario.no_data Scenario.js
           E1600.ArgUndefined [] Scenario.fresh
           (E1600.mkState (Some Scenario.credential) true)
           (events (E1600._init Scenario.no_data [] Scenario.fresh))
           (mkResponse 401 "unauthorized" None));
    reflexivity.
Defined.
